(** * SimpleCanBusBridge: a shallow embedding of [CanBusBridge]

    The bridge of [src/CanBusBridge.h] and [src/CanBusBridge.cpp] relays
    frames between a hardware CAN bus and a virtual ("Io") CAN bus.  The
    object's fields become a record, each member function becomes a function
    on that record, and every call that leaves the object (logging, writing
    to the hardware bus, sending on the virtual bus, registering the
    callback) is recorded, in program order, in a trace of events.

    The classes the bridge talks to ([HardwareCanBus], [Library::Io::CanBus],
    [Library::Io::InputCanFrame], the application, the [Component] base
    class) are declared outside [src/]; they appear here only through the
    members the bridge uses.  The hooks of the base class that each
    lifecycle function calls first ([Component::doLoad], [Component::doInit],
    [Component::doUpdate]) are framework code and are not part of the
    model. *)

From Stdlib Require Import NArith String List Lia.
From stdpp Require Import base gmap sets list strings pretty.

#[local] Set Warnings "-clear-no-such-hyp".

Local Open Scope N_scope.

(** ** Data *)

(** [uint32_t]: identifiers and indices.  The bridge never computes with
    them (it only compares, stores and prints them), so no wrap-around
    arises and the value is kept as a natural number. *)
Abbreviation uint32_t := N (only parsing).

(** [CanFrame] is declared outside [src/]; the bridge reads its [ident_]
    member and otherwise passes the frame on whole, so the rest of the frame
    is kept as an opaque byte sequence. *)
Record CanFrame := mkCanFrame {
  ident_ : uint32_t;
  data_ : list Byte.byte;
}.

Inductive LogLevel := Info | Warn.

Inductive Status := StatusUnknown | StatusOk.

(** Modelled from the spec: [Library::Io::CanBus] ([Io/CanBus.h], absent from
    [src/]), the virtual endpoint.  Its contract in the spec is
    [getIndex() -> number], [getCanFdBaudRate() -> number], plus the calls
    [registerAllFrames], [disableOutputScheduling] and [sendFrame], which are
    events below.  The baud rate is a rate, taken as an unsigned number like
    the index; [doInit] tests it with [> 0]. *)
Record CanBus := mkCanBus {
  CanBus_getName : string;
  getIndex : uint32_t;
  getCanFdBaudRate : N;
}.

(** Modelled from the spec: [Library::Io::InputCanFrame]
    ([Io/InputCanFrame.h], absent from [src/]), a frame descriptor with its
    identifier and its declared CAN-FD flag. *)
Record InputCanFrame := mkInputCanFrame {
  getIdentifier : uint32_t;
  isCanFd : bool;
}.

(** Modelled from the spec: [HardwareCanBus] ([HardwareCanBus.h], absent from
    [src/]), the hardware endpoint: the public member [is_can_fd_] that
    [doInit] assigns, and the inbound queue behind
    [isHardwareCanFrameQueueEmpty()] and [readFrame()], oldest frame first.
    [writeFrame] is an event below. *)
Record HardwareCanBus := mkHardwareCanBus {
  is_can_fd_ : bool;
  hw_queue : list CanFrame;
}.

(** What [findFullName] and [findChild] can return: a component that is a
    [CanBus], or one of another class. *)
Inductive Component :=
| IsCanBus (bus : CanBus)
| OtherComponent.

(** [dynamic_cast<CanBus*>(p)]: null for a null pointer and for a component
    of another class. *)
Definition dynamic_cast_CanBus (p : option Component) : option CanBus :=
  match p with
  | Some (IsCanBus bus) => Some bus
  | _ => None
  end.

(** Modelled from the spec: the application object ([HardwareEquipmentApp],
    absent from [src/]) as far as the bridge queries it: its name, the power
    flag, lookup by child name and by full path, and the recursive
    enumerations of the virtual buses and of the frame descriptors. *)
Record App := mkApp {
  App_getName : string;
  isPowered : bool;
  findChild : string → option Component;
  findFullName : string → option Component;
  getChildrenRecursiveAs_CanBus : list CanBus;
  getChildrenRecursiveAs_InputCanFrame : list InputCanFrame;
}.

(** The lambda that [doInit] hands to [registerAllFrames]:
    [[&](uint32_t id, const std::vector<uint8_t>& input_frame)
       { setFrame(id, input_frame); }]. *)
Inductive Callback := CallSetFrame.

(** Calls that leave the object, in the order the code makes them. *)
Inductive Event :=
| EvLog (level : LogLevel) (msg : string)
| EvSetStatus (status : Status) (msg : string)
| EvWriteFrame (id : uint32_t) (frame : list Byte.byte) (is_fd : bool)
| EvSendFrame (bus : CanBus) (frame : CanFrame)
| EvRegisterAllFrames (bus : CanBus) (cb : Callback)
| EvDisableOutputScheduling (bus : CanBus).

(** The fields of [class CanBusBridge] (header, lines 44-54), the name kept
    by the [Component] base class, and [output_frame], the function-local
    static of [doUpdate].  A pointer field is [None] when null and otherwise
    holds the object it points to. *)
Record CanBusBridge := mkCanBusBridge {
  name_ : string;
  hardware_can_bus_ : option HardwareCanBus;
  can_bus_ : option CanBus;
  app_ : option App;
  index_ : uint32_t;
  to_be_input_to_ecu_can_id_set_ : gset N;
  received_from_ecu_can_id_set_ : gset N;
  can_id_fd_map_ : gmap N bool;
  output_frame : CanFrame;
}.

Definition set_hardware_can_bus_ (hw : option HardwareCanBus) (s : CanBusBridge) :=
  mkCanBusBridge (name_ s) hw (can_bus_ s) (app_ s) (index_ s)
    (to_be_input_to_ecu_can_id_set_ s) (received_from_ecu_can_id_set_ s)
    (can_id_fd_map_ s) (output_frame s).

Definition set_can_bus_ (bus : option CanBus) (s : CanBusBridge) :=
  mkCanBusBridge (name_ s) (hardware_can_bus_ s) bus (app_ s) (index_ s)
    (to_be_input_to_ecu_can_id_set_ s) (received_from_ecu_can_id_set_ s)
    (can_id_fd_map_ s) (output_frame s).

Definition set_app_ (app : option App) (s : CanBusBridge) :=
  mkCanBusBridge (name_ s) (hardware_can_bus_ s) (can_bus_ s) app (index_ s)
    (to_be_input_to_ecu_can_id_set_ s) (received_from_ecu_can_id_set_ s)
    (can_id_fd_map_ s) (output_frame s).

Definition set_index_ (index : uint32_t) (s : CanBusBridge) :=
  mkCanBusBridge (name_ s) (hardware_can_bus_ s) (can_bus_ s) (app_ s) index
    (to_be_input_to_ecu_can_id_set_ s) (received_from_ecu_can_id_set_ s)
    (can_id_fd_map_ s) (output_frame s).

Definition set_to_be_input_to_ecu_can_id_set_ (ids : gset N) (s : CanBusBridge) :=
  mkCanBusBridge (name_ s) (hardware_can_bus_ s) (can_bus_ s) (app_ s) (index_ s)
    ids (received_from_ecu_can_id_set_ s) (can_id_fd_map_ s) (output_frame s).

Definition set_received_from_ecu_can_id_set_ (ids : gset N) (s : CanBusBridge) :=
  mkCanBusBridge (name_ s) (hardware_can_bus_ s) (can_bus_ s) (app_ s) (index_ s)
    (to_be_input_to_ecu_can_id_set_ s) ids (can_id_fd_map_ s) (output_frame s).

Definition set_can_id_fd_map_ (m : gmap N bool) (s : CanBusBridge) :=
  mkCanBusBridge (name_ s) (hardware_can_bus_ s) (can_bus_ s) (app_ s) (index_ s)
    (to_be_input_to_ecu_can_id_set_ s) (received_from_ecu_can_id_set_ s)
    m (output_frame s).

Definition set_output_frame (frame : CanFrame) (s : CanBusBridge) :=
  mkCanBusBridge (name_ s) (hardware_can_bus_ s) (can_bus_ s) (app_ s) (index_ s)
    (to_be_input_to_ecu_can_id_set_ s) (received_from_ecu_can_id_set_ s)
    (can_id_fd_map_ s) frame.

(** ** Effects: a trace of events and a result *)

(** A member function either returns, or leaves by
    [throw std::runtime_error(msg)], or dereferences a null pointer
    ([Fault]: the behaviour of the C++ program is then undefined and the
    model stops there).  Only a return carries the object on: an exception
    aborts the lifecycle call, and the half-assigned object it leaves is not
    used again here (neither [doLoad] nor [doInit] touches the two
    suppression sets before it can throw). *)
Inductive outcome (A : Type) :=
| Ok (a : A)
| Throw (msg : string)
| Fault.
Arguments Ok {A} a.
Arguments Throw {A} msg.
Arguments Fault {A}.

(** The events emitted so far, and how the computation ended. *)
Definition M (A : Type) : Type := list Event * outcome A.

Definition M_ret {A} (a : A) : M A := ([], Ok a).

Definition M_bind {A B} (f : A → M B) (m : M A) : M B :=
  match m with
  | (evs, Ok a) => let (evs', r) := f a in (evs ++ evs', r)
  | (evs, Throw msg) => (evs, Throw msg)
  | (evs, Fault) => (evs, Fault)
  end.

#[export] Instance M_mret : MRet M := @M_ret.
#[export] Instance M_mbind : MBind M := @M_bind.

Definition emit (e : Event) : M unit := ([e], Ok tt).
Definition throw {A} (msg : string) : M A := ([], Throw msg).

(** [p->...] on a pointer field. *)
Definition deref {A} (p : option A) : M A :=
  match p with
  | Some a => mret a
  | None => ([], Fault)
  end.

(** [Component::log]. *)
Definition log (level : LogLevel) (msg : string) : M unit := emit (EvLog level msg).

(** [Component::setStatus]. *)
Definition setStatus (status : Status) (msg : string) : M unit :=
  emit (EvSetStatus status msg).

(** The events of a computation and its result. *)
Definition events {A} (m : M A) : list Event := m.1.
Definition result {A} (m : M A) : outcome A := m.2.

(** ** The router: [setFrame] and [doUpdate] *)

(** [app_ != nullptr && app_->isPowered()], as both functions compute it. *)
Definition power (s : CanBusBridge) : bool :=
  match app_ s with
  | Some app => isPowered app
  | None => false
  end.

(** [CanBusBridge::setFrame] (CanBusBridge.cpp, lines 132-147). *)
Definition setFrame (id : uint32_t) (input_frame : list Byte.byte)
    (s : CanBusBridge) : M CanBusBridge :=
  if power s && bool_decide (id ∉ received_from_ecu_can_id_set_ s) then
    let s := set_to_be_input_to_ecu_can_id_set_
               ({[id]} ∪ to_be_input_to_ecu_can_id_set_ s) s in
    match can_id_fd_map_ s !! id with
    | Some is_fd =>
        _ ← deref (hardware_can_bus_ s);
        emit (EvWriteFrame id input_frame is_fd);;
        log Info ("CAN Frame (ID: " +:+ pretty id +:+ ") successfully sent to hardware.");;
        mret s
    | None =>
        (* Send as CAN-FD if the frame is undefined *)
        _ ← deref (hardware_can_bus_ s);
        emit (EvWriteFrame id input_frame true);;
        log Warn ("Received undefined CAN Frame with ID: " +:+ pretty id);;
        mret s
    end
  else mret s.

(** [hardware_can_bus_->readFrame(&output_frame)] when the queue holds
    [frame] followed by [rest]: the frame is copied into [output_frame] and
    leaves the queue. *)
Definition readFrame (frame : CanFrame) (rest : list CanFrame)
    (s : CanBusBridge) : CanBusBridge :=
  set_output_frame frame
    (set_hardware_can_bus_
       ((λ hw, mkHardwareCanBus (is_can_fd_ hw) rest) <$> hardware_can_bus_ s) s).

(** The rest of the loop body (lines 124-127), on the frame just read. *)
Definition doUpdate_relay (s : CanBusBridge) : M CanBusBridge :=
  if bool_decide (ident_ (output_frame s) ∉ to_be_input_to_ecu_can_id_set_ s) then
    let s := set_received_from_ecu_can_id_set_
               ({[ident_ (output_frame s)]} ∪ received_from_ecu_can_id_set_ s) s in
    bus ← deref (can_bus_ s);
    emit (EvSendFrame bus (output_frame s));;
    mret s
  else mret s.

(** The [while] loop of [doUpdate] once [power] is known to hold: [queue] is
    the hardware queue as [isHardwareCanFrameQueueEmpty()] sees it; each
    round reads one frame, so the recursion is on the queue. *)
Fixpoint doUpdate_loop (queue : list CanFrame) (s : CanBusBridge) : M CanBusBridge :=
  match queue with
  | [] => mret s
  | frame :: rest =>
      s ← doUpdate_relay (readFrame frame rest s);
      doUpdate_loop rest s
  end.

(** [CanBusBridge::doUpdate] (lines 115-129).  [power] is read once, before
    the loop; when it is false the loop condition fails at once and
    [hardware_can_bus_] is not even dereferenced. *)
Definition doUpdate (s : CanBusBridge) : M CanBusBridge :=
  if power s then
    hw ← deref (hardware_can_bus_ s);
    doUpdate_loop (hw_queue hw) s
  else mret s.

(** ** Construction, loading and binding *)

(** [CanBusBridge::CanBusBridge(Component* parent, const std::string& name)]
    (lines 15-18): null pointers, index 0, empty sets and map; the static
    [output_frame] starts as [CanFrame{0}]. *)
Definition CanBusBridge_new (name : string) : M CanBusBridge :=
  setStatus StatusUnknown "Constructed";;
  mret (mkCanBusBridge name None None None 0 ∅ ∅ ∅ (mkCanFrame 0 [])).

(** [CanBusBridge::doLoad] (lines 33-45).  [service] is what
    [getServiceAs<App>()] returns and [index_option] the "index" entry of the
    options, if present. *)
Definition doLoad (service : option App) (index_option : option uint32_t)
    (s : CanBusBridge) : M CanBusBridge :=
  let s := set_app_ service s in
  let s := set_index_ (default 0 index_option) s in
  match app_ s with
  | Some app =>
      match findChild app "CanCommunication" with
      | None =>
          throw ("Invalid config file! No CanCommunication section children found in "
                 +:+ App_getName app +:+ "_config.json")
      | Some _ => setStatus StatusOk "Loaded";; mret s
      end
  | None => setStatus StatusOk "Loaded";; mret s
  end.

(** The [for] loop of [doInit] (lines 78-87): every virtual bus whose index
    equals [index_] is looked up again by its [ComSpec] path; the loop has no
    [break], so a later candidate with the same index replaces an earlier
    one.  [can_bus] is the value of [can_bus_] so far. *)
Fixpoint doInit_scan (app : App) (index : uint32_t) (io_can_buses : list CanBus)
    (can_bus : option CanBus) : M (option CanBus) :=
  match io_can_buses with
  | [] => mret can_bus
  | io_can_bus :: rest =>
      if bool_decide (index = getIndex io_can_bus) then
        log Info ("CAN interface name mismatch. Using CAN bus index "
                  +:+ pretty index +:+ ".");;
        let can_bus_full_name :=
          "/" +:+ App_getName app +:+ "/ComSpec/" +:+ CanBus_getName io_can_bus in
        let can_bus := dynamic_cast_CanBus (findFullName app can_bus_full_name) in
        match can_bus with
        | None =>
            throw ("CAN bus not found in configuration file for index " +:+ pretty index)
        | Some _ => doInit_scan app index rest can_bus
        end
      else doInit_scan app index rest can_bus
  end.

(** Lines 65-92 of [doInit]: resolving the virtual endpoint, by name first. *)
Definition doInit_bind_virtual (app : App) (s : CanBusBridge) : M CanBus :=
  let io_can_buses := getChildrenRecursiveAs_CanBus app in
  match io_can_buses with
  | [] => throw "No CAN buses found in the configuration file."
  | _ :: _ =>
      let can_interface_name := name_ s in
      let can_bus_full_name :=
        "/" +:+ App_getName app +:+ "/CanCommunication/" +:+ can_interface_name in
      let can_bus := dynamic_cast_CanBus (findFullName app can_bus_full_name) in
      can_bus ← match can_bus with
                | None => doInit_scan app (index_ s) io_can_buses None
                | Some _ => mret can_bus
                end;
      match can_bus with
      | None => throw "CAN bus configuration missing or incorrect."
      | Some bus => mret bus
      end
  end.

(** Lines 102-109 of [doInit]: filling the classification table; a later
    descriptor of the same identifier overwrites an earlier one. *)
Definition doInit_fill_map (io_input_can_frames : list InputCanFrame)
    (m : gmap N bool) : gmap N bool :=
  foldl (λ m input_can_frame,
           <[getIdentifier input_can_frame := isCanFd input_can_frame]> m)
        m io_input_can_frames.

(** [CanBusBridge::doInit] (lines 48-112).  [hardware_can_buses] is what
    [getChildrenAs<HardwareCanBus>()] returns: pointers, which the code
    itself tests for null. *)
Definition doInit (hardware_can_buses : list (option HardwareCanBus))
    (s : CanBusBridge) : M CanBusBridge :=
  match hardware_can_buses with
  | [] => throw "No HardwareCanBus children found."
  | front :: others =>
      match others with
      | [] => mret tt
      | _ :: _ =>
          log Warn "Multiple HardwareCanBus children are defined. The first one will be used."
      end;;
      let s := set_hardware_can_bus_ front s in
      match hardware_can_bus_ s with
      | None => throw "Null hardware CAN bus"
      | Some hw =>
          app ← deref (app_ s);
          bus ← doInit_bind_virtual app s;
          let s := set_can_bus_ (Some bus) s in
          emit (EvRegisterAllFrames bus CallSetFrame);;
          emit (EvDisableOutputScheduling bus);;
          let s := set_hardware_can_bus_
                     (Some (mkHardwareCanBus (0 <? getCanFdBaudRate bus) (hw_queue hw))) s in
          let io_input_can_frames := getChildrenRecursiveAs_InputCanFrame app in
          s ← match io_input_can_frames with
              | [] => log Warn "No InputCanFrames found in the configuration.";; mret s
              | _ :: _ =>
                  mret (set_can_id_fd_map_
                          (doInit_fill_map io_input_can_frames (can_id_fd_map_ s)) s)
              end;
          setStatus StatusOk "Initialized";;
          mret s
      end
  end.


(** ** Sessions *)

(** The hardware queue of a bridge (empty when no hardware bus is bound). *)
Definition pending_hardware_frames (s : CanBusBridge) : list CanFrame :=
  from_option hw_queue [] (hardware_can_bus_ s).

(** What can happen to a bridge: the framework's lifecycle calls, the virtual
    bus invoking the callback, and the two changes that come from outside,
    the application's power flag and a frame arriving in the hardware
    queue.

    [sendFrame] is the last statement of a round of the drain loop, and what
    the virtual bus does inside it is not in [src/]: it may call back into
    [setFrame] before the next round.  [DoUpdateRound] is one round of the
    loop taken alone (a read and its relay), so that a tick interleaved with
    such callbacks is a session too: rounds, with [SetFrame] calls between
    them. *)
Inductive Call :=
| DoLoad (service : option App) (index_option : option uint32_t)
| DoInit (hardware_can_buses : list (option HardwareCanBus))
| DoUpdate
| DoUpdateRound
| SetFrame (id : uint32_t) (input_frame : list Byte.byte)
| PowerChanged (powered : bool)
| FrameArrived (frame : CanFrame).

Definition set_powered (powered : bool) (app : App) : App :=
  mkApp (App_getName app) powered (findChild app) (findFullName app)
    (getChildrenRecursiveAs_CanBus app) (getChildrenRecursiveAs_InputCanFrame app).

Definition enqueue (frame : CanFrame) (hw : HardwareCanBus) : HardwareCanBus :=
  mkHardwareCanBus (is_can_fd_ hw) (hw_queue hw ++ [frame]).

Definition exec (c : Call) (s : CanBusBridge) : M CanBusBridge :=
  match c with
  | DoLoad service index_option => doLoad service index_option s
  | DoInit hardware_can_buses => doInit hardware_can_buses s
  | DoUpdate => doUpdate s
  | DoUpdateRound =>
      match pending_hardware_frames s with
      | [] => mret s
      | frame :: rest => doUpdate_relay (readFrame frame rest s)
      end
  | SetFrame id input_frame => setFrame id input_frame s
  | PowerChanged powered => mret (set_app_ (set_powered powered <$> app_ s) s)
  | FrameArrived frame =>
      mret (set_hardware_can_bus_ (enqueue frame <$> hardware_can_bus_ s) s)
  end.

Fixpoint run (cs : list Call) (s : CanBusBridge) : M CanBusBridge :=
  match cs with
  | [] => mret s
  | c :: cs => s ← exec c s; run cs s
  end.

(** The states a bridge can be in: freshly constructed, or after any call
    that returned. *)
Inductive reachable : CanBusBridge → Prop :=
| reachable_new name evs s :
    CanBusBridge_new name = (evs, Ok s) → reachable s
| reachable_exec c s evs s' :
    reachable s → exec c s = (evs, Ok s') → reachable s'.

(** After a successful [doInit] both endpoints are bound. *)
Definition bound (s : CanBusBridge) : Prop :=
  is_Some (hardware_can_bus_ s) ∧ is_Some (can_bus_ s).

(** The fields that neither [setFrame] nor [doUpdate] assigns. *)
Definition same_binding (s s' : CanBusBridge) : Prop :=
  name_ s' = name_ s ∧ can_bus_ s' = can_bus_ s ∧ app_ s' = app_ s ∧
  index_ s' = index_ s ∧ can_id_fd_map_ s' = can_id_fd_map_ s.

(** The routing rule of the specification for the hardware-to-virtual
    direction, in its words: a frame whose identifier is in the
    Pending-From-Virtual set is suppressed, any other frame is forwarded. *)
Definition forwarded_to_virtual (pending_from_virtual : gset N)
    (frames : list CanFrame) : list CanFrame :=
  filter (λ frame, ident_ frame ∉ pending_from_virtual) frames.

(** ** A small configuration for the examples

    An application "Ecu" with one virtual bus "can0" (index 0, CAN-FD baud
    rate set) that the name of the bridge, "bridge", resolves to, and the
    classification table of the specification's scenario:
    0x100 is classic CAN, 0x200 is CAN-FD. *)

Definition example_bus : CanBus := mkCanBus "can0" 0 500000.

Definition example_findChild (child : string) : option Component :=
  if bool_decide (child = "CanCommunication"%string) then Some OtherComponent else None.

Definition example_findFullName (path : string) : option Component :=
  if bool_decide (path = "/Ecu/CanCommunication/bridge"%string)
  then Some (IsCanBus example_bus) else None.

Definition example_app (powered : bool) : App :=
  mkApp "Ecu" powered example_findChild example_findFullName [example_bus]
    [mkInputCanFrame 0x100 false; mkInputCanFrame 0x200 true].

(** The bridge after construction, loading and binding in that
    configuration, with [queue] waiting on the hardware side. *)
Definition example_bridge (powered : bool) (queue : list CanFrame) : CanBusBridge :=
  mkCanBusBridge "bridge" (Some (mkHardwareCanBus true queue)) (Some example_bus)
    (Some (example_app powered)) 0 ∅ ∅
    (<[0x200 := true]> (<[0x100 := false]> ∅)) (mkCanFrame 0 []).

(** The reading of the unpowered-drain scenario as the specification words
    it: a tick without power still empties the hardware queue. *)
Definition drains_while_unpowered (s : CanBusBridge) : Prop :=
  power s = false →
  ∃ evs s', doUpdate s = (evs, Ok s') ∧
            pending_hardware_frames s' = [] ∧
            (∀ bus frame, EvSendFrame bus frame ∉ evs) ∧
            to_be_input_to_ecu_can_id_set_ s' = to_be_input_to_ecu_can_id_set_ s ∧
            received_from_ecu_can_id_set_ s' = received_from_ecu_can_id_set_ s.

(** A short session in the example configuration: load, bind with frame
    0x400 waiting on the hardware side, one tick, then the virtual side
    transmits 0x100 and tries to transmit 0x400. *)
Definition example_session : list Call :=
  [DoLoad (Some (example_app true)) None;
   DoInit [Some (mkHardwareCanBus false [mkCanFrame 0x400 []])];
   DoUpdate;
   SetFrame 0x100 [];
   SetFrame 0x400 []].

(** The example bridge after a powered tick has relayed frame 0x400 from
    hardware to the virtual bus. *)
Definition example_relayed : CanBusBridge :=
  mkCanBusBridge "bridge" (Some (mkHardwareCanBus true [])) (Some example_bus)
    (Some (example_app true)) 0 ∅ ({[0x400]} ∪ ∅)
    (<[0x200 := true]> (<[0x100 := false]> ∅)) (mkCanFrame 0x400 []).

(** ** Vocabulary for the binding claims *)

(** The virtual bus that the bridge's own name resolves to (lines 71-75):
    [dynamic_cast<CanBus*>(app_->findFullName("/<app>/CanCommunication/<name>"))]. *)
Definition resolves_by_name (app : App) (s : CanBusBridge) : option CanBus :=
  dynamic_cast_CanBus
    (findFullName app ("/" +:+ App_getName app +:+ "/CanCommunication/" +:+ name_ s)).

(** The virtual bus that a candidate of the index scan resolves to (lines
    81-82): the lookup of "/<app>/ComSpec/<candidate name>". *)
Definition resolves_by_index (app : App) (io_can_bus : CanBus) : option CanBus :=
  dynamic_cast_CanBus
    (findFullName app ("/" +:+ App_getName app +:+ "/ComSpec/" +:+ CanBus_getName io_can_bus)).

(** The warning of line 57, emitted when there is more than one hardware
    candidate. *)
Definition ambiguity_warning (others : list (option HardwareCanBus)) : list Event :=
  match others with
  | [] => []
  | _ :: _ =>
      [EvLog Warn "Multiple HardwareCanBus children are defined. The first one will be used."]
  end.




(** A configuration in which no path resolves: one virtual bus, of index 0,
    and a loaded bridge configured with index 7. *)
Definition unresolved_app : App :=
  mkApp "Ecu" true example_findChild (λ _, None) [example_bus] [].





(** The example bridge after construction and [doLoad], before [doInit]. *)
Definition example_loaded : CanBusBridge :=
  mkCanBusBridge "bridge" None None (Some (example_app true)) 0 ∅ ∅ ∅ (mkCanFrame 0 []).

(** ** The remaining members *)

(** [CanBusBridge::CanBusBridge()] (line 12): delegates to the other
    constructor with a null parent and the empty name. *)
Definition CanBusBridge_default : M CanBusBridge := CanBusBridge_new "".

(** The line feed that ends each line of [toString]. *)
Definition newline : string := String (Ascii.ascii_of_nat 10) EmptyString.

(** [CanBusBridge::toString] (lines 24-30).  [Component_toString] is what
    [Component::toString()] of the base class returns. *)
Definition toString (Component_toString : string) (s : CanBusBridge) : string :=
  let out := "[CanBusBridge]" +:+ newline in
  let out := out +:+ ("- name: " +:+ name_ s +:+ newline) in
  let out := out +:+ ("- index: " +:+ pretty (index_ s) +:+ newline) in
  out +:+ Component_toString.

(** ** Vocabulary for sessions *)

(** The calls of normal operation, after binding: ticks, single rounds,
    transmissions from the virtual side and the changes from outside. *)
Definition is_routing_call (c : Call) : bool :=
  match c with
  | DoLoad _ _ | DoInit _ => false
  | _ => true
  end.

Definition is_DoInit (c : Call) : bool :=
  match c with
  | DoInit _ => true
  | _ => false
  end.

Definition is_DoLoad (c : Call) : bool :=
  match c with
  | DoLoad _ _ => true
  | _ => false
  end.

(** An event that is only a log message. *)
Definition is_log (e : Event) : bool :=
  match e with
  | EvLog _ _ => true
  | _ => false
  end.

(** The descriptors, respectively the virtual buses, that [doInit] takes
    into account for one identifier, respectively one index. *)
Definition descriptors_of (id : N) (io_input_can_frames : list InputCanFrame) :
    list InputCanFrame :=
  filter (λ input_can_frame, getIdentifier input_can_frame = id) io_input_can_frames.

Definition candidates_of (index : N) (io_can_buses : list CanBus) : list CanBus :=
  filter (λ io_can_bus, index = getIndex io_can_bus) io_can_buses.

(** An event that carries a frame across the bridge. *)
Definition is_traffic (e : Event) : bool :=
  match e with
  | EvWriteFrame _ _ _ | EvSendFrame _ _ => true
  | _ => false
  end.

(** The fallback message is the only message [doInit] logs at level
    [Info]. *)
Definition is_info_log (e : Event) : bool :=
  match e with
  | EvLog Info _ => true
  | _ => false
  end.

(** A configuration with two virtual buses of index 0, each found by its
    "ComSpec" path, and a bridge whose name does not resolve. *)
Definition two_candidates_findFullName (path : string) : option Component :=
  if bool_decide (path = "/Ecu/ComSpec/can0"%string)
  then Some (IsCanBus (mkCanBus "can0" 0 500000))
  else if bool_decide (path = "/Ecu/ComSpec/can1"%string)
  then Some (IsCanBus (mkCanBus "can1" 0 0))
  else None.

Definition two_candidates_app : App :=
  mkApp "Ecu" true example_findChild two_candidates_findFullName
    [mkCanBus "can0" 0 500000; mkCanBus "can1" 0 0] [].

Definition two_candidates_bridge : CanBusBridge :=
  mkCanBusBridge "other" None None (Some two_candidates_app) 0 ∅ ∅ ∅ (mkCanFrame 0 []).

(** The availability gating as the specification words it: whenever the
    power flag is false, no step of the bridge, a round of a tick in
    progress included, calls [writeFrame] or [sendFrame]. *)
Definition silent_while_unpowered (s : CanBusBridge) : Prop :=
  power s = false →
  ∀ c evs r, exec c s = (evs, r) → ∀ e, e ∈ evs → is_traffic e = false.

(** The example bridge in the middle of a tick that was entered with power
    and with the frames 0x100 and 0x400 queued: the first round has relayed
    0x100, the application has lost power since, and 0x400 is still
    queued. *)
Definition mid_tick_unpowered : CanBusBridge :=
  mkCanBusBridge "bridge" (Some (mkHardwareCanBus true [mkCanFrame 0x400 []]))
    (Some example_bus) (Some (example_app false)) 0 ∅ ({[0x100]} ∪ ∅)
    (<[0x200 := true]> (<[0x100 := false]> ∅)) (mkCanFrame 0x100 []).

(** * Verification *)

(** ** Basic facts about the effect monad *)

Lemma bind_Ok {A B} (f : A → M B) (evs : list Event) (a : A) :
  ((evs, Ok a) ≫= f) = (evs ++ (f a).1, (f a).2).
Proof. unfold mbind, M_mbind, M_bind. by destruct (f a). Qed.

Lemma bind_ret {A B} (f : A → M B) (a : A) : (mret a ≫= f) = f a.
Proof. unfold mret, M_mret, M_ret. rewrite bind_Ok. by destruct (f a). Qed.

Lemma bind_emit {B} (f : unit → M B) (e : Event) :
  (emit e ≫= f) = (e :: (f tt).1, (f tt).2).
Proof. unfold emit. by rewrite bind_Ok. Qed.

(** Running the monad's operations where they are applied to known values. *)
Tactic Notation "run_M" :=
  cbv [mbind M_mbind M_bind emit log setStatus throw deref mret M_mret M_ret List.app].
Tactic Notation "run_M" "in" hyp(H) :=
  cbv [mbind M_mbind M_bind emit log setStatus throw deref mret M_mret M_ret List.app] in H.

Lemma bind_Ok_inv {A B} (f : A → M B) (m : M A) (evs : list Event) (b : B) :
  (m ≫= f) = (evs, Ok b) →
  ∃ evs1 a evs2, m = (evs1, Ok a) ∧ f a = (evs2, Ok b) ∧ evs = evs1 ++ evs2.
Proof.
  destruct m as [evs1 [a | msg |]]; unfold mbind, M_mbind, M_bind; try discriminate.
  destruct (f a) as [evs2 r] eqn:Hf. intros [= <- ->]. by exists evs1, a, evs2.
Qed.

(** ** The two directions of the router, case by case *)

Section Router.
Implicit Types (s : CanBusBridge) (id : N) (frame : CanFrame).

Lemma setFrame_unpowered s id payload :
  power s = false → setFrame id payload s = ([], Ok s).
Proof. intros Hp. unfold setFrame. by rewrite Hp. Qed.

Lemma setFrame_suppressed s id payload :
  id ∈ received_from_ecu_can_id_set_ s → setFrame id payload s = ([], Ok s).
Proof.
  intros Hin. unfold setFrame.
  rewrite bool_decide_eq_false_2; [| by intros Hn].
  by rewrite andb_false_r.
Qed.

Lemma setFrame_forwarded s hw id payload :
  power s = true → id ∉ received_from_ecu_can_id_set_ s →
  hardware_can_bus_ s = Some hw →
  setFrame id payload s =
    (match can_id_fd_map_ s !! id with
     | Some is_fd =>
         [EvWriteFrame id payload is_fd;
          EvLog Info ("CAN Frame (ID: " +:+ pretty id +:+ ") successfully sent to hardware.")]
     | None =>
         [EvWriteFrame id payload true;
          EvLog Warn ("Received undefined CAN Frame with ID: " +:+ pretty id)]
     end,
     Ok (set_to_be_input_to_ecu_can_id_set_
           ({[id]} ∪ to_be_input_to_ecu_can_id_set_ s) s)).
Proof.
  intros Hp Hn Hhw. unfold setFrame.
  rewrite Hp, bool_decide_eq_true_2 by done.
  cbn [andb set_to_be_input_to_ecu_can_id_set_ can_id_fd_map_ hardware_can_bus_].
  rewrite Hhw. by destruct (can_id_fd_map_ s !! id).
Qed.

(** [setFrame] returns on every bound bridge, and what it can change is the
    Pending-From-Virtual set, by adding [id]. *)
Lemma setFrame_returns s id payload :
  is_Some (hardware_can_bus_ s) →
  ∃ evs s', setFrame id payload s = (evs, Ok s') ∧
    (s' = s ∨ s' = set_to_be_input_to_ecu_can_id_set_
                     ({[id]} ∪ to_be_input_to_ecu_can_id_set_ s) s
              ∧ id ∉ received_from_ecu_can_id_set_ s).
Proof.
  intros [hw Hhw]. destruct (power s) eqn:Hp.
  - destruct (decide (id ∈ received_from_ecu_can_id_set_ s)) as [Hin | Hn].
    + eexists _, _. split; [by apply setFrame_suppressed | by left].
    + eexists _, _. split; [by eapply setFrame_forwarded | by right].
  - eexists _, _. split; [by apply setFrame_unpowered | by left].
Qed.

(** Whenever [setFrame] returns, the same holds (also on a bridge that is
    not bound, where it can only return without writing). *)
Lemma setFrame_Ok_inv s id payload evs s' :
  setFrame id payload s = (evs, Ok s') →
  s' = s ∨ s' = set_to_be_input_to_ecu_can_id_set_
                  ({[id]} ∪ to_be_input_to_ecu_can_id_set_ s) s
           ∧ id ∉ received_from_ecu_can_id_set_ s.
Proof.
  destruct (hardware_can_bus_ s) as [hw |] eqn:Hhw.
  - destruct (setFrame_returns s id payload) as (evs0 & s0 & Heq & Hs); [by eexists |].
    rewrite Heq. by intros [= _ <-].
  - unfold setFrame. destruct (power s); cbn [andb]; [| intros [= _ <-]; by left].
    case_bool_decide; [| intros [= _ <-]; by left].
    cbn [set_to_be_input_to_ecu_can_id_set_ can_id_fd_map_ hardware_can_bus_].
    rewrite Hhw. by destruct (can_id_fd_map_ s !! id).
Qed.

(** One round of the drain loop on a frame whose identifier is pending
    from the virtual side: nothing is sent and no set changes. *)
Lemma doUpdate_relay_suppressed s frame rest :
  ident_ frame ∈ to_be_input_to_ecu_can_id_set_ s →
  doUpdate_relay (readFrame frame rest s) = ([], Ok (readFrame frame rest s)).
Proof.
  intros Hin. unfold doUpdate_relay.
  by rewrite bool_decide_eq_false_2 by (intros Hn; by apply Hn).
Qed.

(** One round on any other frame: the identifier is recorded and the frame
    is sent on, as read. *)
Lemma doUpdate_relay_forwarded s bus frame rest :
  ident_ frame ∉ to_be_input_to_ecu_can_id_set_ s →
  can_bus_ s = Some bus →
  doUpdate_relay (readFrame frame rest s) =
    ([EvSendFrame bus frame],
     Ok (set_received_from_ecu_can_id_set_
           ({[ident_ frame]} ∪ received_from_ecu_can_id_set_ s)
           (readFrame frame rest s))).
Proof.
  intros Hn Hbus. unfold doUpdate_relay.
  rewrite bool_decide_eq_true_2 by done.
  cbn [readFrame set_received_from_ecu_can_id_set_ set_output_frame
       set_hardware_can_bus_ can_bus_ output_frame received_from_ecu_can_id_set_].
  by rewrite Hbus.
Qed.

End Router.

(** ** The drain loop *)

Section DrainLoop.
Implicit Types (s : CanBusBridge) (frame : CanFrame) (queue : list CanFrame).

(** Whenever a round returns, it either suppressed the frame or recorded
    and sent it. *)
Lemma doUpdate_relay_Ok_inv s evs s' :
  doUpdate_relay s = (evs, Ok s') →
  (evs = [] ∧ s' = s ∧ ident_ (output_frame s) ∈ to_be_input_to_ecu_can_id_set_ s) ∨
  (∃ bus, can_bus_ s = Some bus ∧
          evs = [EvSendFrame bus (output_frame s)] ∧
          s' = set_received_from_ecu_can_id_set_
                 ({[ident_ (output_frame s)]} ∪ received_from_ecu_can_id_set_ s) s ∧
          ident_ (output_frame s) ∉ to_be_input_to_ecu_can_id_set_ s).
Proof.
  unfold doUpdate_relay. case_bool_decide as Hid.
  - cbn [set_received_from_ecu_can_id_set_ can_bus_ output_frame].
    destruct (can_bus_ s) as [bus |] eqn:Hbus; [| discriminate].
    intros [= <- <-]. right. by exists bus.
  - intros [= <- <-]. left. split_and!; [done | done |].
    destruct (decide (ident_ (output_frame s) ∈ to_be_input_to_ecu_can_id_set_ s)); done.
Qed.

(** The full effect of the loop on a bridge whose virtual bus is bound:
    the frames sent are the queued frames that the rule forwards, in queue
    order and unchanged; their identifiers, and nothing else, are added to
    the Pending-From-Hardware set; the queue ends up empty. *)
Lemma doUpdate_loop_bound bus queue : ∀ s hw,
  can_bus_ s = Some bus →
  hardware_can_bus_ s = Some hw →
  hw_queue hw = queue →
  ∃ s', doUpdate_loop queue s =
          (EvSendFrame bus <$>
             forwarded_to_virtual (to_be_input_to_ecu_can_id_set_ s) queue, Ok s') ∧
        to_be_input_to_ecu_can_id_set_ s' = to_be_input_to_ecu_can_id_set_ s ∧
        received_from_ecu_can_id_set_ s' =
          list_to_set (ident_ <$>
             forwarded_to_virtual (to_be_input_to_ecu_can_id_set_ s) queue)
          ∪ received_from_ecu_can_id_set_ s ∧
        hardware_can_bus_ s' = Some (mkHardwareCanBus (is_can_fd_ hw) []) ∧
        same_binding s s'.
Proof.
  induction queue as [| frame rest IH]; intros s hw Hbus Hhw Hq.
  - exists s. cbn [doUpdate_loop]. unfold forwarded_to_virtual.
    rewrite filter_nil. split_and!; try done.
    + cbn. set_solver.
    + rewrite Hhw. f_equal. destruct hw as [fd q]. cbn in *. by subst.
  - cbn [doUpdate_loop]. unfold forwarded_to_virtual in *.
    destruct (decide (ident_ frame ∈ to_be_input_to_ecu_can_id_set_ s)) as [Hin | Hn].
    + rewrite doUpdate_relay_suppressed by done. rewrite bind_Ok.
      rewrite filter_cons_False by (intros Hx; by apply Hx).
      destruct (IH (readFrame frame rest s) (mkHardwareCanBus (is_can_fd_ hw) rest))
        as (s' & Heq & Htbi & Hrec & Hhw' & Hsame);
        [done | by cbn; rewrite Hhw | done |].
      exists s'. rewrite Heq. split_and!; done.
    + rewrite (doUpdate_relay_forwarded s bus) by done. rewrite bind_Ok.
      rewrite filter_cons_True by done.
      set (s1 := set_received_from_ecu_can_id_set_ _ _).
      destruct (IH s1 (mkHardwareCanBus (is_can_fd_ hw) rest))
        as (s' & Heq & Htbi & Hrec & Hhw' & Hsame);
        [done | by cbn; rewrite Hhw | done |].
      exists s'. rewrite Heq. split_and!; try done.
      rewrite Hrec. cbn. set_solver.
Qed.

(** Whenever the loop returns, also on a bridge that is not bound: the
    Pending-From-Virtual set is as before, the Pending-From-Hardware set
    has only grown, by identifiers outside the Pending-From-Virtual set,
    and it holds the identifier of every frame that was sent. *)
Lemma doUpdate_loop_Ok_inv queue : ∀ s evs s',
  doUpdate_loop queue s = (evs, Ok s') →
  to_be_input_to_ecu_can_id_set_ s' = to_be_input_to_ecu_can_id_set_ s ∧
  received_from_ecu_can_id_set_ s ⊆ received_from_ecu_can_id_set_ s' ∧
  (∀ id, id ∈ received_from_ecu_can_id_set_ s' →
         id ∈ received_from_ecu_can_id_set_ s ∨
         id ∉ to_be_input_to_ecu_can_id_set_ s) ∧
  (∀ bus frame, EvSendFrame bus frame ∈ evs →
                ident_ frame ∈ received_from_ecu_can_id_set_ s').
Proof.
  induction queue as [| frame rest IH]; intros s evs s'; cbn [doUpdate_loop].
  - intros [= <- <-]. split_and!; [done | done | by left |].
    intros bus frame Hin. by apply elem_of_nil in Hin.
  - intros Hrun. apply bind_Ok_inv in Hrun as (evs1 & s1 & evs2 & Hstep & Hrest & ->).
    apply IH in Hrest as (Htbi & Hsub & Hnew & Hsent).
    apply doUpdate_relay_Ok_inv in Hstep
      as [(-> & -> & Hin) | (bus & Hbus & -> & -> & Hn)].
    + split_and!; [done | done | done |].
      intros bus fr Hel. rewrite app_nil_l in Hel. by eapply Hsent.
    + cbn in *. split_and!; [done | set_solver | |].
      * intros id Hid. destruct (Hnew id Hid) as [Hold | Hfresh]; [| by right].
        apply elem_of_union in Hold as [Heq | Hold]; [| by left].
        apply elem_of_singleton in Heq as ->. by right.
      * intros bus' fr Hel. apply elem_of_cons in Hel as [[= <- <-] | Hel].
        -- apply Hsub. cbn. set_solver.
        -- by eapply Hsent.
Qed.

End DrainLoop.

(** ** The example states are states of the program *)

Example example_loaded_by_doLoad :
  (s ← CanBusBridge_new "bridge"; doLoad (Some (example_app true)) None s) =
    ([EvSetStatus StatusUnknown "Constructed"; EvSetStatus StatusOk "Loaded"],
     Ok example_loaded).
Proof. reflexivity. Qed.

Example example_bridge_by_doInit :
  doInit [Some (mkHardwareCanBus false [mkCanFrame 0x400 []])] example_loaded =
    ([EvRegisterAllFrames example_bus CallSetFrame;
      EvDisableOutputScheduling example_bus;
      EvSetStatus StatusOk "Initialized"],
     Ok (example_bridge true [mkCanFrame 0x400 []])).
Proof. reflexivity. Qed.

Example example_relayed_by_doUpdate :
  doUpdate (example_bridge true [mkCanFrame 0x400 []]) =
    ([EvSendFrame example_bus (mkCanFrame 0x400 [])], Ok example_relayed).
Proof. reflexivity. Qed.

(** * The routing claims *)

(** C1. Hardware-to-virtual routing rule.  In every round of the drain
    loop, for the frame just read: if its identifier is in the
    Pending-From-Virtual set, nothing is sent and neither set changes;
    otherwise its identifier is added to the Pending-From-Hardware set and the
    frame is sent to the virtual bus as read.  Over a whole powered tick of a
    bound bridge: every queued frame is read, the frames sent are the queued
    frames that the rule forwards, in queue order, their identifiers are what
    the Pending-From-Hardware set gains, and the Pending-From-Virtual set is
    as before. *)
Theorem doUpdate_routes_hardware_frames (s : CanBusBridge) hw bus :
  power s = true →
  hardware_can_bus_ s = Some hw →
  can_bus_ s = Some bus →
  (∀ frame rest,
     (ident_ frame ∈ to_be_input_to_ecu_can_id_set_ s →
      ∃ s', doUpdate_relay (readFrame frame rest s) = ([], Ok s') ∧
            to_be_input_to_ecu_can_id_set_ s' = to_be_input_to_ecu_can_id_set_ s ∧
            received_from_ecu_can_id_set_ s' = received_from_ecu_can_id_set_ s) ∧
     (ident_ frame ∉ to_be_input_to_ecu_can_id_set_ s →
      ∃ s', doUpdate_relay (readFrame frame rest s) = ([EvSendFrame bus frame], Ok s') ∧
            to_be_input_to_ecu_can_id_set_ s' = to_be_input_to_ecu_can_id_set_ s ∧
            received_from_ecu_can_id_set_ s' =
              {[ident_ frame]} ∪ received_from_ecu_can_id_set_ s)) ∧
  ∃ s',
    doUpdate s =
      (EvSendFrame bus <$>
         forwarded_to_virtual (to_be_input_to_ecu_can_id_set_ s) (hw_queue hw), Ok s') ∧
    to_be_input_to_ecu_can_id_set_ s' = to_be_input_to_ecu_can_id_set_ s ∧
    received_from_ecu_can_id_set_ s' =
      list_to_set (ident_ <$>
         forwarded_to_virtual (to_be_input_to_ecu_can_id_set_ s) (hw_queue hw))
      ∪ received_from_ecu_can_id_set_ s ∧
    pending_hardware_frames s' = [].
Proof.
  intros Hp Hhw Hbus. split.
  - intros frame rest. split; intros Hid.
    + rewrite doUpdate_relay_suppressed by done. by eexists.
    + rewrite (doUpdate_relay_forwarded s bus) by done. by eexists.
  - unfold doUpdate. rewrite Hp, Hhw. cbn [deref]. rewrite bind_ret.
    destruct (doUpdate_loop_bound bus (hw_queue hw) s hw)
      as (s' & Heq & Htbi & Hrec & Hhw' & _); [done .. |].
    exists s'. split_and!; [done | done | done |].
    unfold pending_hardware_frames. by rewrite Hhw'.
Qed.

(** A tick with 0x100 pending from the virtual side and the frames 0x100 and
    0x400 queued: 0x100 is suppressed, 0x400 is forwarded and recorded. *)
Lemma doUpdate_routes_hardware_frames_witness :
  ∃ s',
    doUpdate (set_to_be_input_to_ecu_can_id_set_ {[0x100]}
                (example_bridge true [mkCanFrame 0x100 []; mkCanFrame 0x400 []])) =
      ([EvSendFrame example_bus (mkCanFrame 0x400 [])], Ok s') ∧
    to_be_input_to_ecu_can_id_set_ s' = {[0x100]} ∧
    received_from_ecu_can_id_set_ s' = {[0x400]} ∪ ∅ ∪ ∅ ∧
    pending_hardware_frames s' = [].
Proof.
  exact (proj2 (doUpdate_routes_hardware_frames
                  (set_to_be_input_to_ecu_can_id_set_ {[0x100]}
                     (example_bridge true [mkCanFrame 0x100 []; mkCanFrame 0x400 []]))
                  (mkHardwareCanBus true [mkCanFrame 0x100 []; mkCanFrame 0x400 []])
                  example_bus eq_refl eq_refl eq_refl)).
Defined.

(** C3. Format classification on the virtual-to-hardware path.  A powered,
    non-suppressed [setFrame] writes the frame to hardware exactly once: with
    the stored flag when the identifier is in the classification table, and
    with the CAN-FD flag [true], followed by the warning about an undefined
    frame, when it is not.  The frame is written in both cases. *)
Theorem setFrame_format_classification (s : CanBusBridge) hw id payload :
  power s = true →
  id ∉ received_from_ecu_can_id_set_ s →
  hardware_can_bus_ s = Some hw →
  (∀ is_fd, can_id_fd_map_ s !! id = Some is_fd →
     events (setFrame id payload s) =
       [EvWriteFrame id payload is_fd;
        EvLog Info ("CAN Frame (ID: " +:+ pretty id +:+ ") successfully sent to hardware.")]) ∧
  (can_id_fd_map_ s !! id = None →
     events (setFrame id payload s) =
       [EvWriteFrame id payload true;
        EvLog Warn ("Received undefined CAN Frame with ID: " +:+ pretty id)]) ∧
  ∃ s', result (setFrame id payload s) = Ok s'.
Proof.
  intros Hp Hn Hhw. rewrite (setFrame_forwarded s hw) by done.
  unfold events, result. cbn [fst snd]. split_and!.
  - by intros is_fd ->.
  - by intros ->.
  - by eexists.
Qed.

(** The scenario of the specification: with the table
    {0x100 -> classic, 0x200 -> FD}, 0x100 is written with [is_fd = false]
    and the unclassified 0x300 with [is_fd = true] and a warning. *)
Lemma setFrame_format_classification_witness :
  events (setFrame 0x100 [] (example_bridge true [])) =
    [EvWriteFrame 0x100 [] false;
     EvLog Info "CAN Frame (ID: 256) successfully sent to hardware."] ∧
  events (setFrame 0x300 [] (example_bridge true [])) =
    [EvWriteFrame 0x300 [] true;
     EvLog Warn "Received undefined CAN Frame with ID: 768"].
Proof.
  split.
  - refine (proj1 (setFrame_format_classification (example_bridge true [])
                     (mkHardwareCanBus true []) 0x100 [] eq_refl _ eq_refl) false eq_refl).
    compute_done.
  - refine (proj1 (proj2 (setFrame_format_classification (example_bridge true [])
                     (mkHardwareCanBus true []) 0x300 [] eq_refl _ eq_refl)) eq_refl).
    compute_done.
Defined.

(** The state [mid_tick_unpowered] is reached inside a tick: one round,
    then the loss of power. *)
Example mid_tick_unpowered_reached :
  run [DoUpdateRound; PowerChanged false]
    (example_bridge true [mkCanFrame 0x100 []; mkCanFrame 0x400 []]) =
    ([EvSendFrame example_bus (mkCanFrame 0x100 [])], Ok mid_tick_unpowered).
Proof. reflexivity. Qed.

(** C4, as stated, fails: [doUpdate] reads the power flag once, before its
    loop (line 118), and the loop does not read it again.  In the middle of a
    tick that was entered with power, with the flag false by now, the next
    round still sends the queued frame 0x400 to the virtual bus. *)
Lemma unpowered_round_still_sends : ¬ silent_while_unpowered mid_tick_unpowered.
Proof.
  intros Hsilent.
  assert (is_traffic (EvSendFrame example_bus (mkCanFrame 0x400 [])) = false) as Hnone.
  { eapply (Hsilent eq_refl DoUpdateRound); [reflexivity | constructor]. }
  discriminate Hnone.
Qed.

(** C4, amended.  The power flag is read on entry to each tick and to each
    transmission attempt.  A tick and a transmission attempt that are entered
    while the flag is false both return at once: no event at all is emitted
    (so neither [writeFrame] nor [sendFrame] is called) and the bridge, with
    both suppression sets and whatever is queued on the hardware side, is
    left exactly as it was. *)
Theorem unpowered_bridge_is_silent (s : CanBusBridge) :
  power s = false →
  doUpdate s = ([], Ok s) ∧
  ∀ id payload, setFrame id payload s = ([], Ok s).
Proof.
  intros Hp. split.
  - unfold doUpdate. by rewrite Hp.
  - intros id payload. by apply setFrame_unpowered.
Qed.

Lemma unpowered_bridge_is_silent_witness :
  doUpdate (example_bridge false [mkCanFrame 0x400 []]) =
    ([], Ok (example_bridge false [mkCanFrame 0x400 []])) ∧
  ∀ id payload,
    setFrame id payload (example_bridge false [mkCanFrame 0x400 []]) =
      ([], Ok (example_bridge false [mkCanFrame 0x400 []])).
Proof.
  exact (unpowered_bridge_is_silent (example_bridge false [mkCanFrame 0x400 []]) eq_refl).
Defined.

(** C5, as stated, fails: with the power flag false and two frames queued on
    the hardware side, the tick does not drain the queue; the loop condition
    [power && ...] is false before the first read. *)
Lemma unpowered_tick_does_not_drain :
  ¬ drains_while_unpowered
      (example_bridge false [mkCanFrame 0x100 []; mkCanFrame 0x200 []]).
Proof.
  intros Hdrain. destruct (Hdrain eq_refl) as (evs & s' & Hrun & Hq & _).
  injection Hrun as _ <-. discriminate Hq.
Qed.

(** C5, amended.  When the power flag is false throughout a tick, the tick
    reads no frame: the frames queued on the hardware side stay queued,
    nothing is forwarded to the virtual bus and neither suppression set
    changes. *)
Theorem unpowered_tick_leaves_queue (s : CanBusBridge) hw :
  power s = false →
  hardware_can_bus_ s = Some hw →
  ∃ s', doUpdate s = ([], Ok s') ∧
        hardware_can_bus_ s' = Some hw ∧
        pending_hardware_frames s' = hw_queue hw ∧
        to_be_input_to_ecu_can_id_set_ s' = to_be_input_to_ecu_can_id_set_ s ∧
        received_from_ecu_can_id_set_ s' = received_from_ecu_can_id_set_ s.
Proof.
  intros Hp Hhw. exists s. unfold doUpdate, pending_hardware_frames.
  rewrite Hp, Hhw. by split_and!.
Qed.

Lemma unpowered_tick_leaves_queue_witness :
  ∃ s', doUpdate (example_bridge false [mkCanFrame 0x100 []; mkCanFrame 0x200 []]) =
          ([], Ok s') ∧
        hardware_can_bus_ s' =
          Some (mkHardwareCanBus true [mkCanFrame 0x100 []; mkCanFrame 0x200 []]) ∧
        pending_hardware_frames s' = [mkCanFrame 0x100 []; mkCanFrame 0x200 []] ∧
        to_be_input_to_ecu_can_id_set_ s' = ∅ ∧
        received_from_ecu_can_id_set_ s' = ∅.
Proof.
  exact (unpowered_tick_leaves_queue
           (example_bridge false [mkCanFrame 0x100 []; mkCanFrame 0x200 []])
           (mkHardwareCanBus true [mkCanFrame 0x100 []; mkCanFrame 0x200 []])
           eq_refl eq_refl).
Defined.

(** * Binding *)

Section Binding.
Implicit Types (s : CanBusBridge) (app : App) (bus : CanBus).

(** What a successful [doInit] has done: it took the first hardware
    candidate, resolved the virtual bus, registered the callback, disabled
    the output scheduling, set [is_can_fd_] and filled the table; the name,
    the index, the application and both suppression sets are untouched. *)
Lemma doInit_Ok_inv hardware_can_buses s evs s' :
  doInit hardware_can_buses s = (evs, Ok s') →
  ∃ hw others app bus evs_bind,
    hardware_can_buses = Some hw :: others ∧
    app_ s = Some app ∧
    doInit_bind_virtual app (set_hardware_can_bus_ (Some hw) s) = (evs_bind, Ok bus) ∧
    evs = match others with
          | [] => []
          | _ :: _ =>
              [EvLog Warn
                 "Multiple HardwareCanBus children are defined. The first one will be used."]
          end
          ++ evs_bind
          ++ [EvRegisterAllFrames bus CallSetFrame; EvDisableOutputScheduling bus]
          ++ match getChildrenRecursiveAs_InputCanFrame app with
             | [] => [EvLog Warn "No InputCanFrames found in the configuration."]
             | _ :: _ => []
             end
          ++ [EvSetStatus StatusOk "Initialized"] ∧
    s' = mkCanBusBridge (name_ s)
           (Some (mkHardwareCanBus (0 <? getCanFdBaudRate bus) (hw_queue hw)))
           (Some bus) (app_ s) (index_ s)
           (to_be_input_to_ecu_can_id_set_ s) (received_from_ecu_can_id_set_ s)
           (doInit_fill_map (getChildrenRecursiveAs_InputCanFrame app) (can_id_fd_map_ s))
           (output_frame s).
Proof.
  unfold doInit. destruct hardware_can_buses as [| [hw |] others]; [discriminate | |].
  - intros Hrun. apply bind_Ok_inv in Hrun as (evs0 & [] & evs1 & Hwarn & Hrun & ->).
    cbn [set_hardware_can_bus_ hardware_can_bus_ app_] in Hrun.
    apply bind_Ok_inv in Hrun as (evs2 & app & evs3 & Happ & Hrun & ->).
    destruct (app_ s) as [app0 |] eqn:Happ_s; [| discriminate].
    injection Happ as <- <-.
    apply bind_Ok_inv in Hrun as (evs_bind & bus & evs4 & Hbind & Hrun & ->).
    exists hw, others, app0, bus, evs_bind. split_and!; [done | done | done | |].
    + destruct others; run_M in Hwarn; injection Hwarn as <-;
        destruct (getChildrenRecursiveAs_InputCanFrame app0);
        run_M in Hrun; injection Hrun as <- _; reflexivity.
    + destruct (getChildrenRecursiveAs_InputCanFrame app0);
        run_M in Hrun; injection Hrun as _ <-; rewrite <- Happ_s; reflexivity.
  - intros Hrun. apply bind_Ok_inv in Hrun as (evs0 & [] & evs1 & Hwarn & Hrun & ->).
    discriminate Hrun.
Qed.

End Binding.

(** * Sessions: what every call preserves *)

Section Sessions.
Implicit Types (s : CanBusBridge) (c : Call) (cs : list Call).

Lemma doLoad_Ok_inv service index_option s evs s' :
  doLoad service index_option s = (evs, Ok s') →
  s' = set_index_ (default 0 index_option) (set_app_ service s).
Proof.
  unfold doLoad. cbn [set_index_ set_app_ app_].
  destruct service as [app |]; [destruct (findChild app _) |];
    run_M; by intros [= _ <-].
Qed.

(** Whenever a tick returns. *)
Lemma doUpdate_Ok_inv s evs s' :
  doUpdate s = (evs, Ok s') →
  to_be_input_to_ecu_can_id_set_ s' = to_be_input_to_ecu_can_id_set_ s ∧
  received_from_ecu_can_id_set_ s ⊆ received_from_ecu_can_id_set_ s' ∧
  (∀ id, id ∈ received_from_ecu_can_id_set_ s' →
         id ∈ received_from_ecu_can_id_set_ s ∨
         id ∉ to_be_input_to_ecu_can_id_set_ s) ∧
  (∀ bus frame, EvSendFrame bus frame ∈ evs →
                ident_ frame ∈ received_from_ecu_can_id_set_ s').
Proof.
  unfold doUpdate. destruct (power s).
  - destruct (hardware_can_bus_ s) as [hw |]; [| discriminate].
    cbn [deref]. rewrite bind_ret. apply doUpdate_loop_Ok_inv.
  - intros [= <- <-]. split_and!; [done | done | by left |].
    intros bus frame Hin. by apply elem_of_nil in Hin.
Qed.

(** A tick of a bound bridge returns. *)
Lemma doUpdate_returns s :
  bound s → ∃ evs s', doUpdate s = (evs, Ok s').
Proof.
  intros [[hw Hhw] [bus Hbus]]. unfold doUpdate. destruct (power s); [| by eexists _, _].
  rewrite Hhw. cbn [deref]. rewrite bind_ret.
  destruct (doUpdate_loop_bound bus (hw_queue hw) s hw) as (s' & Heq & _); [done .. |].
  by eexists _, _.
Qed.

(** Every call that returns leaves both suppression sets at least as large
    as they were, and keeps them disjoint if they were. *)
Lemma exec_sets c s evs s' :
  exec c s = (evs, Ok s') →
  to_be_input_to_ecu_can_id_set_ s ⊆ to_be_input_to_ecu_can_id_set_ s' ∧
  received_from_ecu_can_id_set_ s ⊆ received_from_ecu_can_id_set_ s' ∧
  (to_be_input_to_ecu_can_id_set_ s ## received_from_ecu_can_id_set_ s →
   to_be_input_to_ecu_can_id_set_ s' ## received_from_ecu_can_id_set_ s').
Proof.
  destruct c as [service index_option | hardware_can_buses | | | id payload
                 | powered | frame]; cbn [exec]; intros Hrun.
  - apply doLoad_Ok_inv in Hrun as ->. done.
  - apply doInit_Ok_inv in Hrun as (hw & others & app & bus & evs_b & _ & _ & _ & _ & ->).
    done.
  - apply doUpdate_Ok_inv in Hrun as (Htbi & Hsub & Hnew & _).
    rewrite Htbi. split_and!; [done | done |].
    intros Hdisj id Hid Hrec. destruct (Hnew id Hrec) as [Hold | Hfresh]; [| done].
    by apply (Hdisj id).
  - destruct (pending_hardware_frames s) as [| frame rest]; [by injection Hrun as _ <- |].
    apply doUpdate_relay_Ok_inv in Hrun as [(_ & -> & _) | (bus & _ & _ & -> & Hn)]; [done |].
    cbn in *. split_and!; [done | set_solver | set_solver].
  - apply setFrame_Ok_inv in Hrun as [-> | [-> Hn]]; [done |].
    cbn. split_and!; [set_solver | done | set_solver].
  - injection Hrun as _ <-. done.
  - injection Hrun as _ <-. done.
Qed.

(** A frame that a tick, or a round, has sent to the virtual bus has its
    identifier in the Pending-From-Hardware set afterwards. *)
Lemma sent_is_recorded c s evs s' bus frame :
  c = DoUpdate ∨ c = DoUpdateRound →
  exec c s = (evs, Ok s') →
  EvSendFrame bus frame ∈ evs →
  ident_ frame ∈ received_from_ecu_can_id_set_ s'.
Proof.
  intros [-> | ->]; cbn [exec]; intros Hrun Hsent.
  - apply doUpdate_Ok_inv in Hrun as (_ & _ & _ & Hrec). by eapply Hrec.
  - destruct (pending_hardware_frames s) as [| fr rest].
    + injection Hrun as <- _. by apply elem_of_nil in Hsent.
    + apply doUpdate_relay_Ok_inv in Hrun as [(-> & _) | (bus' & _ & -> & -> & _)].
      * by apply elem_of_nil in Hsent.
      * apply list_elem_of_singleton in Hsent as [= _ ->]. cbn. set_solver.
Qed.

Lemma run_sets cs : ∀ s evs s',
  run cs s = (evs, Ok s') →
  to_be_input_to_ecu_can_id_set_ s ⊆ to_be_input_to_ecu_can_id_set_ s' ∧
  received_from_ecu_can_id_set_ s ⊆ received_from_ecu_can_id_set_ s'.
Proof.
  induction cs as [| c cs IH]; intros s evs s'; cbn [run].
  - by intros [= _ <-].
  - intros Hrun. apply bind_Ok_inv in Hrun as (evs1 & s1 & evs2 & Hc & Hcs & _).
    apply exec_sets in Hc as (Htbi & Hrec & _).
    apply IH in Hcs as (Htbi' & Hrec'). split; by etrans.
Qed.

Lemma run_reachable cs : ∀ s evs s',
  reachable s → run cs s = (evs, Ok s') → reachable s'.
Proof.
  induction cs as [| c cs IH]; intros s evs s' Hs; cbn [run].
  - by intros [= _ <-].
  - intros Hrun. apply bind_Ok_inv in Hrun as (evs1 & s1 & evs2 & Hc & Hcs & _).
    eapply IH; [| done]. by eapply reachable_exec.
Qed.

End Sessions.

(** C2. No echo.  Once a tick (or a single round of it) has sent a frame to
    the virtual bus, its identifier is in the Pending-From-Hardware set and
    stays there whatever calls follow, so every later attempt of the virtual
    side to transmit that identifier, be it at once or after any number of
    other calls, is suppressed: [setFrame] emits nothing (no [writeFrame])
    and changes nothing.  In particular, when hardware delivers 0x400 to a powered
    bridge whose Pending-From-Virtual set is empty, the frame is sent to the
    virtual bus, 0x400 enters the Pending-From-Hardware set, and the
    transmission of 0x400 that follows writes nothing to hardware. *)
Theorem no_echo_to_hardware :
  (∀ (s : CanBusBridge) c evs s' bus frame cs evs'' s'' payload,
     c = DoUpdate ∨ c = DoUpdateRound →
     exec c s = (evs, Ok s') →
     EvSendFrame bus frame ∈ evs →
     run cs s' = (evs'', Ok s'') →
     ident_ frame ∈ received_from_ecu_can_id_set_ s'' ∧
     setFrame (ident_ frame) payload s'' = ([], Ok s'')) ∧
  (∀ (s : CanBusBridge) hw bus frame payload,
     power s = true →
     hardware_can_bus_ s = Some hw →
     can_bus_ s = Some bus →
     hw_queue hw = [frame] →
     ident_ frame = 0x400 →
     to_be_input_to_ecu_can_id_set_ s = ∅ →
     ∃ s', doUpdate s = ([EvSendFrame bus frame], Ok s') ∧
           received_from_ecu_can_id_set_ s' = {[0x400]} ∪ received_from_ecu_can_id_set_ s ∧
           setFrame 0x400 payload s' = ([], Ok s')).
Proof.
  split.
  - intros s c evs s' bus frame cs evs'' s'' payload Hc Htick Hsent Hrun.
    apply run_sets in Hrun as (_ & Hsub).
    assert (ident_ frame ∈ received_from_ecu_can_id_set_ s'') as Hin
      by (apply Hsub; by eapply sent_is_recorded).
    split; [done | by apply setFrame_suppressed].
  - intros s hw bus frame payload Hp Hhw Hbus Hq Hid Hempty.
    unfold doUpdate. rewrite Hp, Hhw. cbn [deref]. rewrite bind_ret, Hq.
    cbn [doUpdate_loop].
    rewrite (doUpdate_relay_forwarded s bus); [| rewrite Hempty; set_solver | done].
    rewrite bind_Ok, Hid. eexists. split_and!; [reflexivity | reflexivity |].
    apply setFrame_suppressed. cbn. set_solver.
Qed.

Lemma no_echo_to_hardware_witness :
  (0x400 ∈ received_from_ecu_can_id_set_
             (set_to_be_input_to_ecu_can_id_set_ ({[0x100]} ∪ ∅) example_relayed) ∧
   setFrame 0x400 [] (set_to_be_input_to_ecu_can_id_set_ ({[0x100]} ∪ ∅) example_relayed) =
     ([], Ok (set_to_be_input_to_ecu_can_id_set_ ({[0x100]} ∪ ∅) example_relayed))) ∧
  ∃ s', doUpdate (example_bridge true [mkCanFrame 0x400 []]) =
          ([EvSendFrame example_bus (mkCanFrame 0x400 [])], Ok s') ∧
        received_from_ecu_can_id_set_ s' = {[0x400]} ∪ ∅ ∧
        setFrame 0x400 [] s' = ([], Ok s').
Proof.
  split.
  - refine (proj1 no_echo_to_hardware
              (example_bridge true [mkCanFrame 0x400 []]) DoUpdate
              [EvSendFrame example_bus (mkCanFrame 0x400 [])]
              example_relayed example_bus (mkCanFrame 0x400 [])
              [SetFrame 0x100 []]
              [EvWriteFrame 0x100 [] false;
               EvLog Info "CAN Frame (ID: 256) successfully sent to hardware."]
              (set_to_be_input_to_ecu_can_id_set_ ({[0x100]} ∪ ∅) example_relayed)
              [] (or_introl eq_refl) eq_refl _ eq_refl).
    constructor.
  - exact (proj2 no_echo_to_hardware
             (example_bridge true [mkCanFrame 0x400 []])
             (mkHardwareCanBus true [mkCanFrame 0x400 []])
             example_bus (mkCanFrame 0x400 []) []
             eq_refl eq_refl eq_refl eq_refl eq_refl eq_refl).
Defined.

(** A successful [doInit] leaves the bridge bound, and ticks and
    transmissions keep it so. *)
Lemma doInit_bound hardware_can_buses (s : CanBusBridge) evs s' :
  doInit hardware_can_buses s = (evs, Ok s') → bound s'.
Proof.
  intros Hrun.
  apply doInit_Ok_inv in Hrun as (hw & others & app & bus & evs_b & _ & _ & _ & _ & ->).
  split; by eexists.
Qed.

(** C9. Monotonic growth of the suppression sets.  On a bound bridge (that
    is, after initialization) a tick and a transmission attempt from the
    virtual side both return, and each leaves the Pending-From-Virtual set
    and the Pending-From-Hardware set supersets of what they were: no
    identifier is ever evicted.  The bridge stays bound, so this holds for
    every operation of a session.  More generally, whatever call returns,
    a lifecycle call, a single round of the drain loop or a change from
    outside included, both sets are supersets of what they were. *)
Theorem suppression_sets_only_grow (s : CanBusBridge) :
  bound s →
  (∃ evs s', doUpdate s = (evs, Ok s') ∧ bound s' ∧
     to_be_input_to_ecu_can_id_set_ s ⊆ to_be_input_to_ecu_can_id_set_ s' ∧
     received_from_ecu_can_id_set_ s ⊆ received_from_ecu_can_id_set_ s') ∧
  (∀ id payload,
    ∃ evs s', setFrame id payload s = (evs, Ok s') ∧ bound s' ∧
      to_be_input_to_ecu_can_id_set_ s ⊆ to_be_input_to_ecu_can_id_set_ s' ∧
      received_from_ecu_can_id_set_ s ⊆ received_from_ecu_can_id_set_ s') ∧
  (∀ c evs s',
     exec c s = (evs, Ok s') →
     to_be_input_to_ecu_can_id_set_ s ⊆ to_be_input_to_ecu_can_id_set_ s' ∧
     received_from_ecu_can_id_set_ s ⊆ received_from_ecu_can_id_set_ s').
Proof.
  intros Hbound. split_and!.
  - destruct Hbound as [[hw Hhw] [bus Hbus]].
    unfold doUpdate. destruct (power s).
    + rewrite Hhw. cbn [deref]. rewrite bind_ret.
      destruct (doUpdate_loop_bound bus (hw_queue hw) s hw)
        as (s' & Heq & Htbi & Hrec & Hhw' & (_ & Hbus' & _)); [done .. |].
      eexists _, s'. split_and!; [done | | by rewrite Htbi | rewrite Hrec; set_solver].
      split; [by rewrite Hhw' | by rewrite Hbus', Hbus].
    + exists [], s. split_and!; [done | | done | done]. split; by eexists.
  - intros id payload.
    destruct (setFrame_returns s id payload) as (evs & s' & Heq & Hs'); [apply Hbound |].
    exists evs, s'. destruct Hs' as [-> | [-> _]]; [by split_and! |].
    split_and!; [done | exact Hbound | cbn; set_solver | done].
  - intros c evs s' Hc. apply exec_sets in Hc as (Htbi & Hrec & _). by split.
Qed.

Lemma suppression_sets_only_grow_witness :
  (∃ evs s', doUpdate example_relayed = (evs, Ok s') ∧ bound s' ∧
     to_be_input_to_ecu_can_id_set_ example_relayed ⊆ to_be_input_to_ecu_can_id_set_ s' ∧
     received_from_ecu_can_id_set_ example_relayed ⊆ received_from_ecu_can_id_set_ s') ∧
  (∀ id payload,
    ∃ evs s', setFrame id payload example_relayed = (evs, Ok s') ∧ bound s' ∧
      to_be_input_to_ecu_can_id_set_ example_relayed ⊆ to_be_input_to_ecu_can_id_set_ s' ∧
      received_from_ecu_can_id_set_ example_relayed ⊆ received_from_ecu_can_id_set_ s') ∧
  (∀ c evs s',
     exec c example_relayed = (evs, Ok s') →
     to_be_input_to_ecu_can_id_set_ example_relayed ⊆ to_be_input_to_ecu_can_id_set_ s' ∧
     received_from_ecu_can_id_set_ example_relayed ⊆ received_from_ecu_can_id_set_ s').
Proof.
  apply (suppression_sets_only_grow example_relayed).
  split; eexists; reflexivity.
Defined.

(** C10. Disjointness.  In every state a bridge can reach, from construction
    through any sequence of calls that return, no identifier is in both the
    Pending-From-Virtual set and the Pending-From-Hardware set. *)
Theorem suppression_sets_disjoint (s : CanBusBridge) :
  reachable s →
  to_be_input_to_ecu_can_id_set_ s ## received_from_ecu_can_id_set_ s.
Proof.
  induction 1 as [name evs s Hnew | c s evs s' Hs IH Hc].
  - injection Hnew as _ <-. cbn. set_solver.
  - apply exec_sets in Hc as (_ & _ & Hdisj). by apply Hdisj.
Qed.

(** The state at the end of [example_session]: 0x100 is pending from the
    virtual side, 0x400 from the hardware side. *)
Lemma suppression_sets_disjoint_witness :
  to_be_input_to_ecu_can_id_set_
    (set_to_be_input_to_ecu_can_id_set_ ({[0x100]} ∪ ∅) example_relayed)
  ## received_from_ecu_can_id_set_
       (set_to_be_input_to_ecu_can_id_set_ ({[0x100]} ∪ ∅) example_relayed).
Proof.
  apply suppression_sets_disjoint.
  eapply (run_reachable example_session
            (mkCanBusBridge "bridge" None None None 0 ∅ ∅ ∅ (mkCanFrame 0 []))).
  - by eapply (reachable_new "bridge").
  - reflexivity.
Defined.

(** * The binding claims *)

Section BindingOrder.
Implicit Types (s : CanBusBridge) (app : App) (bus : CanBus).



(** [doInit] once the hardware candidate and the application are known:
    what remains is the virtual binding and, on success, the side effects
    of lines 95-111. *)
Lemma doInit_unfold hw others s app :
  app_ s = Some app →
  doInit (Some hw :: others) s =
    match doInit_bind_virtual app s with
    | (evs_bind, Ok bus) =>
        (ambiguity_warning others ++ evs_bind
           ++ [EvRegisterAllFrames bus CallSetFrame; EvDisableOutputScheduling bus]
           ++ match getChildrenRecursiveAs_InputCanFrame app with
              | [] => [EvLog Warn "No InputCanFrames found in the configuration."]
              | _ :: _ => []
              end
           ++ [EvSetStatus StatusOk "Initialized"],
         Ok (mkCanBusBridge (name_ s)
               (Some (mkHardwareCanBus (0 <? getCanFdBaudRate bus) (hw_queue hw)))
               (Some bus) (app_ s) (index_ s)
               (to_be_input_to_ecu_can_id_set_ s) (received_from_ecu_can_id_set_ s)
               (doInit_fill_map (getChildrenRecursiveAs_InputCanFrame app)
                  (can_id_fd_map_ s))
               (output_frame s)))
    | (evs_bind, Throw msg) => (ambiguity_warning others ++ evs_bind, Throw msg)
    | (evs_bind, Fault) => (ambiguity_warning others ++ evs_bind, Fault)
    end.
Proof.
  intros Happ. unfold doInit.
  cbn [set_hardware_can_bus_ hardware_can_bus_ app_]. rewrite Happ. run_M.
  change (doInit_bind_virtual app (set_hardware_can_bus_ (Some hw) s))
    with (doInit_bind_virtual app s).
  destruct (doInit_bind_virtual app s) as [evs_bind [bus | msg |]];
    destruct others; try reflexivity;
    destruct (getChildrenRecursiveAs_InputCanFrame app);
    rewrite <- Happ; reflexivity.
Qed.




End BindingOrder.

Section VirtualBinding.
Implicit Types (s : CanBusBridge) (app : App) (bus : CanBus).

(** Name resolution succeeds: the scan is not run. *)
Lemma doInit_bind_virtual_by_name app s bus :
  getChildrenRecursiveAs_CanBus app ≠ [] →
  resolves_by_name app s = Some bus →
  doInit_bind_virtual app s = ([], Ok bus).
Proof.
  intros Hne Hname. unfold doInit_bind_virtual, resolves_by_name in *.
  destruct (getChildrenRecursiveAs_CanBus app) as [| b rest]; [done |].
  by rewrite Hname.
Qed.

(** Name resolution fails: the result is that of the scan, checked by the
    guard of lines 90-92. *)
Lemma doInit_bind_virtual_by_index app s :
  getChildrenRecursiveAs_CanBus app ≠ [] →
  resolves_by_name app s = None →
  doInit_bind_virtual app s =
    (can_bus ← doInit_scan app (index_ s) (getChildrenRecursiveAs_CanBus app) None;
     match can_bus with
     | None => throw "CAN bus configuration missing or incorrect."
     | Some bus => mret bus
     end).
Proof.
  intros Hne Hname. unfold doInit_bind_virtual, resolves_by_name in *.
  destruct (getChildrenRecursiveAs_CanBus app) as [| b rest]; [done |].
  by rewrite Hname.
Qed.


End VirtualBinding.








(** * Further properties of the bridge *)

(** ** What a tick leaves alone, and what it can emit *)

Section TickFrame.
Implicit Types (s : CanBusBridge) (frame : CanFrame) (queue : list CanFrame).

Lemma doUpdate_relay_frame s evs s' :
  doUpdate_relay s = (evs, Ok s') →
  same_binding s s' ∧ hardware_can_bus_ s' = hardware_can_bus_ s ∧
  to_be_input_to_ecu_can_id_set_ s' = to_be_input_to_ecu_can_id_set_ s.
Proof.
  intros Hrun.
  apply doUpdate_relay_Ok_inv in Hrun as [(_ & -> & _) | (bus & _ & _ & -> & _)];
    by repeat split.
Qed.

(** The events of a round, however it ends: at most the one [sendFrame], on
    the bound bus, of the frame read, whose identifier is not pending from
    the virtual side. *)
Lemma doUpdate_relay_events s evs r e :
  doUpdate_relay s = (evs, r) → e ∈ evs →
  ∃ bus, e = EvSendFrame bus (output_frame s) ∧ can_bus_ s = Some bus ∧
         ident_ (output_frame s) ∉ to_be_input_to_ecu_can_id_set_ s.
Proof.
  unfold doUpdate_relay. case_bool_decide as Hid.
  - cbn [set_received_from_ecu_can_id_set_ can_bus_ output_frame].
    destruct (can_bus_ s) as [bus |] eqn:Hbus.
    + intros [= <- <-] Hin. apply list_elem_of_singleton in Hin as ->. by exists bus.
    + intros [= <- <-] Hin. by apply elem_of_nil in Hin.
  - intros [= <- <-] Hin. by apply elem_of_nil in Hin.
Qed.

Lemma bind_events {A B} (f : A → M B) (m : M A) evs r e :
  (m ≫= f) = (evs, r) → e ∈ evs →
  e ∈ m.1 ∨ ∃ a, m.2 = Ok a ∧ e ∈ (f a).1.
Proof.
  destruct m as [evs1 [a | msg |]]; unfold mbind, M_mbind, M_bind.
  - destruct (f a) as [evs2 r2] eqn:Hf. intros [= <- <-] Hin.
    apply elem_of_app in Hin as [Hin | Hin]; [by left | right].
    exists a. by rewrite Hf.
  - intros [= <- <-] Hin. by left.
  - intros [= <- <-] Hin. by left.
Qed.

Lemma doUpdate_loop_frame queue : ∀ s evs s',
  doUpdate_loop queue s = (evs, Ok s') →
  same_binding s s' ∧
  hardware_can_bus_ s' =
    match queue with
    | [] => hardware_can_bus_ s
    | _ :: _ => (λ hw, mkHardwareCanBus (is_can_fd_ hw) []) <$> hardware_can_bus_ s
    end.
Proof.
  induction queue as [| frame rest IH]; intros s evs s'; cbn [doUpdate_loop].
  - intros [= _ <-]. by repeat split.
  - intros Hrun. apply bind_Ok_inv in Hrun as (evs1 & s1 & evs2 & Hstep & Hrest & _).
    apply doUpdate_relay_frame in Hstep as ((Hn & Hb & Ha & Hi & Hm) & Hhw & _).
    apply IH in Hrest as ((Hn' & Hb' & Ha' & Hi' & Hm') & Hhw').
    split.
    + repeat split; etrans; done.
    + rewrite Hhw', Hhw. cbn. destruct rest, (hardware_can_bus_ s); done.
Qed.

(** The events of the loop, however it ends. *)
Lemma doUpdate_loop_events queue : ∀ s evs r e,
  doUpdate_loop queue s = (evs, r) → e ∈ evs →
  ∃ bus frame, e = EvSendFrame bus frame ∧ can_bus_ s = Some bus ∧
               frame ∈ queue ∧
               ident_ frame ∉ to_be_input_to_ecu_can_id_set_ s.
Proof.
  induction queue as [| frame rest IH]; intros s evs r e; cbn [doUpdate_loop].
  - intros [= <- _] Hin. by apply elem_of_nil in Hin.
  - intros Hrun Hin.
    destruct (bind_events _ _ _ _ _ Hrun Hin) as [Hfirst | (s1 & Hok & Hlater)].
    + destruct (doUpdate_relay (readFrame frame rest s)) as [evs1 r1] eqn:Hstep.
      destruct (doUpdate_relay_events _ _ _ _ Hstep Hfirst) as (bus & -> & Hbus & Hid).
      exists bus, frame. split_and!; [done | exact Hbus | by left | exact Hid].
    + destruct (doUpdate_relay (readFrame frame rest s)) as [evs1 r1] eqn:Hstep.
      cbn [snd] in Hok. subst r1.
      apply doUpdate_relay_frame in Hstep as ((_ & Hb & _) & _ & Htbi).
      destruct (doUpdate_loop rest s1) as [evs2 r2] eqn:Hrest.
      destruct (IH _ _ _ _ Hrest Hlater) as (bus & fr & -> & Hbus & Hfr & Hid).
      rewrite Hb in Hbus. rewrite Htbi in Hid.
      exists bus, fr. split_and!; [done | exact Hbus | by right | exact Hid].
Qed.

End TickFrame.

(** ** What each direction can emit *)

Section Emissions.
Implicit Types (s : CanBusBridge) (id : N) (e : Event).

(** The ways [setFrame] can return. *)
Lemma setFrame_Ok_events s id payload evs s' :
  setFrame id payload s = (evs, Ok s') →
  (evs = [] ∧ s' = s) ∨
  (∃ is_fd level msg,
     evs = [EvWriteFrame id payload is_fd; EvLog level msg] ∧
     s' = set_to_be_input_to_ecu_can_id_set_
            ({[id]} ∪ to_be_input_to_ecu_can_id_set_ s) s ∧
     power s = true ∧ (id ∉ received_from_ecu_can_id_set_ s) ∧
     is_Some (hardware_can_bus_ s)).
Proof.
  destruct (power s) eqn:Hp.
  2: { rewrite setFrame_unpowered by done. intros [= <- <-]. by left. }
  destruct (decide (id ∈ received_from_ecu_can_id_set_ s)) as [Hin | Hn].
  { rewrite setFrame_suppressed by done. intros [= <- <-]. by left. }
  destruct (hardware_can_bus_ s) as [hw |] eqn:Hhw.
  - rewrite (setFrame_forwarded s hw) by done. intros [= <- <-]. right.
    destruct (can_id_fd_map_ s !! id); eexists _, _, _; by split_and!.
  - unfold setFrame. rewrite Hp, bool_decide_eq_true_2 by done.
    cbn [andb set_to_be_input_to_ecu_can_id_set_ can_id_fd_map_ hardware_can_bus_].
    rewrite Hhw. by destruct (can_id_fd_map_ s !! id).
Qed.

(** The events of [setFrame], however it ends. *)
Lemma setFrame_events s id payload evs r e :
  setFrame id payload s = (evs, r) → e ∈ evs →
  (∃ is_fd, e = EvWriteFrame id payload is_fd) ∨ is_log e = true.
Proof.
  unfold setFrame. destruct (power s && bool_decide _).
  - cbn [set_to_be_input_to_ecu_can_id_set_ can_id_fd_map_ hardware_can_bus_].
    destruct (hardware_can_bus_ s), (can_id_fd_map_ s !! id); intros [= <- <-] Hin;
      repeat (apply elem_of_cons in Hin as [-> | Hin]);
      try (by apply elem_of_nil in Hin); by eauto.
  - intros [= <- <-] Hin. by apply elem_of_nil in Hin.
Qed.

(** The events of a tick or of a single round, however it ends. *)
Lemma tick_events c s evs r e :
  c = DoUpdate ∨ c = DoUpdateRound →
  exec c s = (evs, r) → e ∈ evs →
  ∃ bus frame, e = EvSendFrame bus frame ∧ can_bus_ s = Some bus ∧
               frame ∈ pending_hardware_frames s ∧
               ident_ frame ∉ to_be_input_to_ecu_can_id_set_ s.
Proof.
  unfold pending_hardware_frames. intros [-> | ->]; cbn [exec]; intros Hrun Hin.
  - unfold doUpdate in Hrun. destruct (power s).
    + destruct (hardware_can_bus_ s) as [hw |]; cbn [deref] in Hrun.
      * rewrite bind_ret in Hrun. by eapply doUpdate_loop_events.
      * injection Hrun as <- _. by apply elem_of_nil in Hin.
    + injection Hrun as <- _. by apply elem_of_nil in Hin.
  - unfold pending_hardware_frames in Hrun.
    destruct (hardware_can_bus_ s) as [hw |] eqn:Hhw; cbn [from_option] in *.
    + destruct (hw_queue hw) as [| frame rest].
      * injection Hrun as <- _. by apply elem_of_nil in Hin.
      * destruct (doUpdate_relay_events _ _ _ _ Hrun Hin) as (bus & -> & Hbus & Hid).
        exists bus, frame. split_and!; [done | exact Hbus | by left | exact Hid].
    + injection Hrun as <- _. by apply elem_of_nil in Hin.
Qed.

End Emissions.

(** X1. No echo in the other direction.  Once [setFrame] has written an
    identifier to hardware, the identifier is pending from the virtual side
    for the rest of the session: whatever calls follow, no later tick, and no
    single round of one, sends a hardware frame with that identifier to the
    virtual bus. *)
Theorem no_echo_to_virtual (s : CanBusBridge) id payload evs s1 is_fd cs evs2 s2
    c evs3 r bus frame :
  setFrame id payload s = (evs, Ok s1) →
  EvWriteFrame id payload is_fd ∈ evs →
  run cs s1 = (evs2, Ok s2) →
  c = DoUpdate ∨ c = DoUpdateRound →
  exec c s2 = (evs3, r) →
  EvSendFrame bus frame ∈ evs3 →
  ident_ frame ≠ id.
Proof.
  intros Hset Hwrite Hrun Hc Htick Hsent Heq.
  apply setFrame_Ok_events in Hset as [[-> _] | (fd & lvl & msg & _ & -> & _)];
    [by apply elem_of_nil in Hwrite |].
  apply run_sets in Hrun as (Hsub & _).
  destruct (tick_events c s2 evs3 r _ Hc Htick Hsent) as (b & fr & [= _ <-] & _ & _ & Hid).
  apply Hid, Hsub. cbn. set_solver.
Qed.

(** 0x100 is written to hardware; 0x100 and 0x400 then arrive from hardware:
    the tick sends 0x400 only. *)
Lemma no_echo_to_virtual_witness :
  doUpdate (set_hardware_can_bus_
              (Some (mkHardwareCanBus true [mkCanFrame 0x100 []; mkCanFrame 0x400 []]))
              (set_to_be_input_to_ecu_can_id_set_ ({[0x100]} ∪ ∅) (example_bridge true []))) =
    ([EvSendFrame example_bus (mkCanFrame 0x400 [])],
     Ok (mkCanBusBridge "bridge" (Some (mkHardwareCanBus true [])) (Some example_bus)
           (Some (example_app true)) 0 ({[0x100]} ∪ ∅) ({[0x400]} ∪ ∅)
           (<[0x200 := true]> (<[0x100 := false]> ∅)) (mkCanFrame 0x400 []))) ∧
  ident_ (mkCanFrame 0x400 []) ≠ 0x100.
Proof.
  split; [reflexivity |].
  refine (no_echo_to_virtual (example_bridge true []) 0x100 []
            [EvWriteFrame 0x100 [] false;
             EvLog Info "CAN Frame (ID: 256) successfully sent to hardware."]
            (set_to_be_input_to_ecu_can_id_set_ ({[0x100]} ∪ ∅) (example_bridge true []))
            false
            [FrameArrived (mkCanFrame 0x100 []); FrameArrived (mkCanFrame 0x400 [])]
            []
            (set_hardware_can_bus_
               (Some (mkHardwareCanBus true [mkCanFrame 0x100 []; mkCanFrame 0x400 []]))
               (set_to_be_input_to_ecu_can_id_set_ ({[0x100]} ∪ ∅) (example_bridge true [])))
            DoUpdate
            [EvSendFrame example_bus (mkCanFrame 0x400 [])]
            _ example_bus (mkCanFrame 0x400 [])
            eq_refl _ eq_refl (or_introl eq_refl) eq_refl _);
    constructor.
Defined.

(** ** What the lifecycle calls can emit *)

Section LifecycleEmissions.
Implicit Types (s : CanBusBridge) (app : App) (e : Event).

Lemma doLoad_events service index_option s evs r e :
  doLoad service index_option s = (evs, r) → e ∈ evs →
  e = EvSetStatus StatusOk "Loaded" ∧ ∃ s', r = Ok s'.
Proof.
  unfold doLoad. cbn [set_index_ set_app_ app_].
  destruct service as [app |]; [destruct (findChild app _) |]; run_M;
    intros [= <- <-] Hin; try (by apply elem_of_nil in Hin);
    apply list_elem_of_singleton in Hin as ->; by eauto.
Qed.

Lemma doInit_scan_events app index io_can_buses : ∀ can_bus evs r e,
  doInit_scan app index io_can_buses can_bus = (evs, r) → e ∈ evs → is_log e = true.
Proof.
  induction io_can_buses as [| io_can_bus rest IH]; intros can_bus evs r e;
    cbn [doInit_scan].
  - intros [= <- _] Hin. by apply elem_of_nil in Hin.
  - case_bool_decide; [| by apply IH].
    unfold log. rewrite bind_emit. cbn beta zeta.
    destruct (dynamic_cast_CanBus _) as [found |].
    + destruct (doInit_scan app index rest (Some found)) as [evs' r'] eqn:Hrest.
      cbn [fst snd]. intros [= <- <-] Hin.
      apply elem_of_cons in Hin as [-> | Hin]; [done | by eapply IH].
    + cbn. intros [= <- <-] Hin. by apply list_elem_of_singleton in Hin as ->.
Qed.

Lemma doInit_bind_virtual_events app s evs r e :
  doInit_bind_virtual app s = (evs, r) → e ∈ evs → is_log e = true.
Proof.
  unfold doInit_bind_virtual.
  destruct (getChildrenRecursiveAs_CanBus app) as [| b rest].
  - intros [= <- _] Hin. by apply elem_of_nil in Hin.
  - destruct (dynamic_cast_CanBus _) as [found |].
    + intros [= <- _] Hin. by apply elem_of_nil in Hin.
    + intros Hrun Hin.
      destruct (bind_events _ _ _ _ _ Hrun Hin) as [Hscan | (cb & _ & Hlast)].
      * destruct (doInit_scan app (index_ s) (b :: rest) None) as [evs' r'] eqn:Hs.
        by eapply doInit_scan_events.
      * destruct cb; by apply elem_of_nil in Hlast.
Qed.

Lemma ambiguity_warning_is_log others e :
  e ∈ ambiguity_warning others → is_log e = true.
Proof.
  destruct others; cbn; intros Hin; [by apply elem_of_nil in Hin |].
  by apply list_elem_of_singleton in Hin as ->.
Qed.

(** The events of [doInit], however it ends: log messages, and, only when it
    returns, the registration, the scheduling call and the status; never a
    frame. *)
Lemma doInit_events hardware_can_buses s evs r e :
  doInit hardware_can_buses s = (evs, r) → e ∈ evs →
  is_log e = true ∨ (is_traffic e = false ∧ ∃ s', r = Ok s').
Proof.
  destruct hardware_can_buses as [| [hw |] others].
  - intros [= <- _] Hin. by apply elem_of_nil in Hin.
  - destruct (app_ s) as [app |] eqn:Happ.
    + rewrite (doInit_unfold hw others s app Happ).
      destruct (doInit_bind_virtual app s) as [evs_b [bus | msg |]] eqn:Hbind;
        intros [= <- <-] Hin.
      * apply elem_of_app in Hin as [Hin | Hin];
          [left; by eapply ambiguity_warning_is_log |].
        apply elem_of_app in Hin as [Hin | Hin];
          [left; by eapply doInit_bind_virtual_events |].
        right.
        destruct (getChildrenRecursiveAs_InputCanFrame app);
          repeat (apply elem_of_cons in Hin as [-> | Hin]);
          try (by apply elem_of_nil in Hin); by eauto.
      * left. apply elem_of_app in Hin as [Hin | Hin];
          [by eapply ambiguity_warning_is_log | by eapply doInit_bind_virtual_events].
      * left. apply elem_of_app in Hin as [Hin | Hin];
          [by eapply ambiguity_warning_is_log | by eapply doInit_bind_virtual_events].
    + unfold doInit. cbn [set_hardware_can_bus_ hardware_can_bus_ app_].
      rewrite Happ. destruct others; run_M; intros [= <- <-] Hin;
        [by apply elem_of_nil in Hin |].
      left. by apply list_elem_of_singleton in Hin as ->.
  - unfold doInit. cbn [set_hardware_can_bus_ hardware_can_bus_].
    destruct others; run_M; intros [= <- <-] Hin; [by apply elem_of_nil in Hin |].
    left. by apply list_elem_of_singleton in Hin as ->.
Qed.

(** Every frame event of a call that returns is accounted for in the
    suppression sets afterwards. *)
Lemma exec_emits c s evs s' :
  exec c s = (evs, Ok s') →
  (∀ id payload is_fd, EvWriteFrame id payload is_fd ∈ evs →
     id ∈ to_be_input_to_ecu_can_id_set_ s') ∧
  (∀ bus frame, EvSendFrame bus frame ∈ evs →
     ident_ frame ∈ received_from_ecu_can_id_set_ s').
Proof.
  intros Hrun. destruct c as [service index_option | hardware_can_buses | | | id payload
                              | powered | frame].
  - split; [intros id payload is_fd Hin | intros bus frame Hin];
      by destruct (doLoad_events _ _ _ _ _ _ Hrun Hin) as [[=] _].
  - split; [intros id payload is_fd Hin | intros bus frame Hin];
      by destruct (doInit_events _ _ _ _ _ Hrun Hin) as [[=] | [[=] _]].
  - split.
    + intros id payload is_fd Hin.
      by destruct (tick_events DoUpdate _ _ _ _ (or_introl eq_refl) Hrun Hin)
        as (? & ? & [=] & _).
    + intros bus frame Hin. by eapply (sent_is_recorded DoUpdate); [left | |].
  - split.
    + intros id payload is_fd Hin.
      by destruct (tick_events DoUpdateRound _ _ _ _ (or_intror eq_refl) Hrun Hin)
        as (? & ? & [=] & _).
    + intros bus frame Hin. by eapply (sent_is_recorded DoUpdateRound); [right | |].
  - cbn [exec] in Hrun.
    apply setFrame_Ok_events in Hrun as [[-> ->] | (fd & lvl & msg & -> & -> & _)].
    + split; intros; by apply elem_of_nil in H.
    + split.
      * intros id' payload' is_fd Hin.
        apply elem_of_cons in Hin as [[= -> _ _] | Hin]; [cbn; set_solver |].
        by apply list_elem_of_singleton in Hin.
      * intros bus frame Hin.
        apply elem_of_cons in Hin as [[=] | Hin]. by apply list_elem_of_singleton in Hin.
  - injection Hrun as <- _. split; intros; by apply elem_of_nil in H.
  - injection Hrun as <- _. split; intros; by apply elem_of_nil in H.
Qed.

Lemma run_emits cs : ∀ s evs s',
  run cs s = (evs, Ok s') →
  (to_be_input_to_ecu_can_id_set_ s ## received_from_ecu_can_id_set_ s →
   to_be_input_to_ecu_can_id_set_ s' ## received_from_ecu_can_id_set_ s') ∧
  (∀ id payload is_fd, EvWriteFrame id payload is_fd ∈ evs →
     id ∈ to_be_input_to_ecu_can_id_set_ s') ∧
  (∀ bus frame, EvSendFrame bus frame ∈ evs →
     ident_ frame ∈ received_from_ecu_can_id_set_ s').
Proof.
  induction cs as [| c cs IH]; intros s evs s'; cbn [run].
  - intros [= <- <-]. split_and!; [done | |]; intros; by apply elem_of_nil in H.
  - intros Hrun. apply bind_Ok_inv in Hrun as (evs1 & s1 & evs2 & Hc & Hcs & ->).
    pose proof (exec_sets _ _ _ _ Hc) as (_ & _ & Hdisj).
    pose proof (exec_emits _ _ _ _ Hc) as (Hw & Hs).
    pose proof (run_sets _ _ _ _ Hcs) as (Htbi & Hrec).
    apply IH in Hcs as (Hdisj' & Hw' & Hs'). split_and!.
    + intros Hd. by apply Hdisj', Hdisj.
    + intros id payload is_fd Hin. apply elem_of_app in Hin as [Hin | Hin].
      * apply Htbi. by eapply Hw.
      * by eapply Hw'.
    + intros bus frame Hin. apply elem_of_app in Hin as [Hin | Hin].
      * apply Hrec. by eapply Hs.
      * by eapply Hs'.
Qed.

End LifecycleEmissions.

(** X2. One direction per identifier.  In a session that starts with disjoint
    suppression sets (as every session does: both are empty after
    construction), an identifier that has been written to hardware is never
    sent to the virtual bus and an identifier that has been sent to the
    virtual bus is never written to hardware: whichever direction relays an
    identifier first keeps it for the whole session. *)
Theorem one_direction_per_identifier (s : CanBusBridge) cs evs s' id payload is_fd
    bus frame :
  to_be_input_to_ecu_can_id_set_ s ## received_from_ecu_can_id_set_ s →
  run cs s = (evs, Ok s') →
  EvWriteFrame id payload is_fd ∈ evs →
  EvSendFrame bus frame ∈ evs →
  ident_ frame ≠ id.
Proof.
  intros Hdisj Hrun Hwrite Hsend Heq.
  apply run_emits in Hrun as (Hd & Hw & Hs).
  apply (Hd Hdisj id); [by eapply Hw | rewrite <- Heq; by eapply Hs].
Qed.

(** The example session relays 0x400 to the virtual bus and 0x100 to
    hardware; the attempt to write 0x400 to hardware leaves no event. *)
Lemma one_direction_per_identifier_witness :
  run example_session (mkCanBusBridge "bridge" None None None 0 ∅ ∅ ∅ (mkCanFrame 0 [])) =
    ([EvSetStatus StatusOk "Loaded";
      EvRegisterAllFrames example_bus CallSetFrame;
      EvDisableOutputScheduling example_bus;
      EvSetStatus StatusOk "Initialized";
      EvSendFrame example_bus (mkCanFrame 0x400 []);
      EvWriteFrame 0x100 [] false;
      EvLog Info "CAN Frame (ID: 256) successfully sent to hardware."],
     Ok (set_to_be_input_to_ecu_can_id_set_ ({[0x100]} ∪ ∅) example_relayed)) ∧
  ident_ (mkCanFrame 0x400 []) ≠ 0x100.
Proof.
  split; [reflexivity |].
  refine (one_direction_per_identifier
            (mkCanBusBridge "bridge" None None None 0 ∅ ∅ ∅ (mkCanFrame 0 []))
            example_session _ _ 0x100 [] false example_bus (mkCanFrame 0x400 [])
            _ eq_refl _ _).
  - intros x Hx. by apply not_elem_of_empty in Hx.
  - do 5 apply list_elem_of_further. constructor.
  - do 4 apply list_elem_of_further. constructor.
Defined.

(** ** Ticks, rounds and repeated calls *)

Section Composition.
Implicit Types (s : CanBusBridge) (id : N).

(** A tick, or a round, of a bound bridge returns and leaves it bound. *)
Lemma tick_bound c s :
  c = DoUpdate ∨ c = DoUpdateRound →
  bound s → ∃ evs s', exec c s = (evs, Ok s') ∧ bound s'.
Proof.
  intros Hc [[hw Hhw] [bus Hbus]]. destruct Hc as [-> | ->]; cbn [exec].
  - unfold doUpdate. destruct (power s).
    + rewrite Hhw. cbn [deref]. rewrite bind_ret.
      destruct (doUpdate_loop_bound bus (hw_queue hw) s hw)
        as (s' & Heq & _ & _ & Hhw' & (_ & Hbus' & _)); [done .. |].
      eexists _, s'. split; [done |].
      split; [by rewrite Hhw' | by rewrite Hbus', Hbus].
    + exists [], s. split; [done |]. split; by eexists.
  - unfold pending_hardware_frames. rewrite Hhw. cbn [from_option].
    destruct (hw_queue hw) as [| frame rest].
    + exists [], s. split; [done |]. split; by eexists.
    + destruct (decide (ident_ frame ∈ to_be_input_to_ecu_can_id_set_ s)).
      * rewrite doUpdate_relay_suppressed by done. eexists _, _. split; [done |].
        split; cbn; [rewrite Hhw | rewrite Hbus]; by eexists.
      * rewrite (doUpdate_relay_forwarded s bus) by done. eexists _, _. split; [done |].
        split; cbn; [rewrite Hhw | rewrite Hbus]; by eexists.
Qed.

Lemma exec_routing_bound c s :
  is_routing_call c = true → bound s →
  ∃ evs s', exec c s = (evs, Ok s') ∧ bound s'.
Proof.
  intros Hc Hbound. destruct c as [| | | | id payload | powered | frame]; try discriminate.
  - apply tick_bound; [by left | done].
  - apply tick_bound; [by right | done].
  - cbn [exec]. destruct (setFrame_returns s id payload) as (evs & s' & Heq & Hs');
      [apply Hbound |].
    exists evs, s'. split; [done |]. by destruct Hs' as [-> | [-> _]].
  - eexists _, _. split; [reflexivity |]. exact Hbound.
  - eexists _, _. split; [reflexivity |]. destruct Hbound as [[hw Hhw] Hbus].
    split; [| exact Hbus]. cbn. rewrite Hhw. by eexists.
Qed.

End Composition.

(** X4. A powered tick drains.  Whenever a tick that was entered with power
    returns, the hardware queue is empty afterwards: every frame that was
    queued has been read, forwarded or suppressed.  And whenever a tick
    returns, a second tick right after it has nothing to do, it emits no
    event and leaves the bridge as it is: after a powered tick because the
    queue is empty, after an unpowered one because the power is still
    off. *)
Theorem second_tick_is_idle (s : CanBusBridge) evs s' :
  doUpdate s = (evs, Ok s') →
  (power s = true → pending_hardware_frames s' = []) ∧
  doUpdate s' = ([], Ok s').
Proof.
  unfold doUpdate, pending_hardware_frames. destruct (power s) eqn:Hp.
  - destruct (hardware_can_bus_ s) as [hw |] eqn:Hhw; [| discriminate].
    cbn [deref]. rewrite bind_ret. intros Hloop.
    pose proof (doUpdate_loop_frame _ _ _ _ Hloop) as ((_ & _ & Happ & _) & Hhw').
    assert (power s' = true) as -> by (unfold power in *; by rewrite Happ).
    rewrite Hhw', Hhw. destruct (hw_queue hw) as [| frame rest] eqn:Hq.
    + cbn [deref from_option]. by rewrite bind_ret, Hq.
    + done.
  - intros [= _ <-]. by rewrite Hp.
Qed.

Lemma second_tick_is_idle_witness :
  pending_hardware_frames example_relayed = [] ∧
  doUpdate example_relayed = ([], Ok example_relayed).
Proof.
  exact (conj
           (proj1 (second_tick_is_idle (example_bridge true [mkCanFrame 0x400 []])
                     [EvSendFrame example_bus (mkCanFrame 0x400 [])] example_relayed
                     eq_refl) eq_refl)
           (proj2 (second_tick_is_idle (example_bridge true [mkCanFrame 0x400 []])
                     [EvSendFrame example_bus (mkCanFrame 0x400 [])] example_relayed
                     eq_refl))).
Defined.

(** X5. The same direction is never suppressed.  Whenever [setFrame]
    returns, calling it again with the same identifier and frame does the
    same again: the same events, so a frame that was written to hardware is
    written once more, and the state it left is unchanged. *)
Theorem setFrame_repeats (s : CanBusBridge) id payload evs s' :
  setFrame id payload s = (evs, Ok s') →
  setFrame id payload s' = (evs, Ok s').
Proof.
  intros Hrun.
  pose proof (setFrame_Ok_events _ _ _ _ _ Hrun)
    as [[-> ->] | (fd & lvl & msg & _ & -> & Hp & Hn & [hw Hhw])]; [done |].
  rewrite (setFrame_forwarded s hw) in Hrun by done. injection Hrun as <-.
  rewrite (setFrame_forwarded _ hw) by done.
  cbn [set_to_be_input_to_ecu_can_id_set_ can_id_fd_map_ to_be_input_to_ecu_can_id_set_].
  do 2 f_equal. unfold set_to_be_input_to_ecu_can_id_set_. cbn. f_equal. set_solver.
Qed.

Lemma setFrame_repeats_witness :
  setFrame 0x100 [] (set_to_be_input_to_ecu_can_id_set_ ({[0x100]} ∪ ∅)
                       (example_bridge true [])) =
    ([EvWriteFrame 0x100 [] false;
      EvLog Info "CAN Frame (ID: 256) successfully sent to hardware."],
     Ok (set_to_be_input_to_ecu_can_id_set_ ({[0x100]} ∪ ∅) (example_bridge true []))).
Proof.
  exact (setFrame_repeats (example_bridge true []) 0x100 [] _ _ eq_refl).
Defined.

(** X6. The bridge relays, it does not originate.  Whatever a tick (or a
    round) emits is a [sendFrame], on the bound virtual bus, of a frame that
    was waiting in the hardware queue and whose identifier is not pending
    from the virtual side: a tick never writes to hardware and never logs.
    Whatever [setFrame] emits is a [writeFrame] of the very identifier and
    frame it was given, or a log message: it never sends to the virtual
    bus.  Both hold however the call ends. *)
Theorem bridge_only_relays (s : CanBusBridge) :
  (∀ c evs r e,
     c = DoUpdate ∨ c = DoUpdateRound →
     exec c s = (evs, r) → e ∈ evs →
     ∃ bus frame, e = EvSendFrame bus frame ∧ can_bus_ s = Some bus ∧
                  frame ∈ pending_hardware_frames s ∧
                  ident_ frame ∉ to_be_input_to_ecu_can_id_set_ s) ∧
  (∀ id payload evs r e,
     setFrame id payload s = (evs, r) → e ∈ evs →
     (∃ is_fd, e = EvWriteFrame id payload is_fd) ∨ is_log e = true).
Proof.
  split.
  - intros c evs r e. apply tick_events.
  - intros id payload evs r e. apply setFrame_events.
Qed.

Lemma bridge_only_relays_witness :
  (∃ bus frame,
     EvSendFrame example_bus (mkCanFrame 0x400 []) = EvSendFrame bus frame ∧
     can_bus_ (example_bridge true [mkCanFrame 0x400 []]) = Some bus ∧
     frame ∈ pending_hardware_frames (example_bridge true [mkCanFrame 0x400 []]) ∧
     ident_ frame ∉ to_be_input_to_ecu_can_id_set_
                      (example_bridge true [mkCanFrame 0x400 []])) ∧
  ((∃ is_fd, EvWriteFrame 0x300 [] true = EvWriteFrame 0x300 [] is_fd) ∨
   is_log (EvWriteFrame 0x300 [] true) = true).
Proof.
  split.
  - refine (proj1 (bridge_only_relays (example_bridge true [mkCanFrame 0x400 []]))
              DoUpdate [EvSendFrame example_bus (mkCanFrame 0x400 [])] _ _
              (or_introl eq_refl) eq_refl _).
    constructor.
  - refine (proj2 (bridge_only_relays (example_bridge true []))
              0x300 [] [EvWriteFrame 0x300 [] true;
                        EvLog Warn "Received undefined CAN Frame with ID: 768"] _ _
              eq_refl _).
    constructor.
Defined.

(** X7. After a successful [doInit] the bridge runs.  Every sequence of
    ticks, single rounds, transmissions from the virtual side, power changes
    and frame arrivals that follows returns, call after call: no null
    pointer is dereferenced and nothing is thrown; and the bridge is still
    bound at the end. *)
Theorem initialised_bridge_runs hardware_can_buses (s : CanBusBridge) evs s1 cs :
  doInit hardware_can_buses s = (evs, Ok s1) →
  Forall (λ c, is_routing_call c = true) cs →
  ∃ evs' s2, run cs s1 = (evs', Ok s2) ∧ bound s2.
Proof.
  intros Hinit Hcs. apply doInit_bound in Hinit. clear s evs hardware_can_buses.
  revert s1 Hinit. induction Hcs as [| c cs Hc _ IH]; intros s1 Hbound.
  - by exists [], s1.
  - destruct (exec_routing_bound c s1 Hc Hbound) as (evs1 & s' & Hexec & Hbound').
    destruct (IH s' Hbound') as (evs2 & s2 & Hrun & Hbound2).
    exists (evs1 ++ evs2), s2. split; [| done].
    cbn [run]. by rewrite Hexec, bind_Ok, Hrun.
Qed.

Lemma initialised_bridge_runs_witness :
  ∃ evs' s2,
    run [FrameArrived (mkCanFrame 0x100 []); SetFrame 0x100 []; DoUpdateRound;
         PowerChanged false; DoUpdate; SetFrame 0x200 []]
      (example_bridge true [mkCanFrame 0x400 []]) = (evs', Ok s2) ∧ bound s2.
Proof.
  refine (initialised_bridge_runs
            [Some (mkHardwareCanBus false [mkCanFrame 0x400 []])] example_loaded _
            (example_bridge true [mkCanFrame 0x400 []]) _ eq_refl _).
  repeat constructor.
Defined.

(** ** Around the lifecycle *)

(** X8. A tick between [doLoad] and [doInit].  On a bridge that has been
    constructed and loaded but not initialised, a tick does nothing as long
    as there is no application or the application is unpowered; as soon as
    the application is powered the tick dereferences the null
    [hardware_can_bus_] at the loop condition. *)
Theorem tick_before_doInit name service index_option evs (s : CanBusBridge) :
  (s0 ← CanBusBridge_new name; doLoad service index_option s0) = (evs, Ok s) →
  (power s = false → doUpdate s = ([], Ok s)) ∧
  (power s = true → doUpdate s = ([], Fault)) ∧
  power s = from_option isPowered false service.
Proof.
  change (CanBusBridge_new name)
    with ([EvSetStatus StatusUnknown "Constructed"],
          Ok (mkCanBusBridge name None None None 0 ∅ ∅ ∅ (mkCanFrame 0 []))).
  rewrite bind_Ok.
  destruct (doLoad service index_option _) as [evs0 r0] eqn:Hload.
  cbn [fst snd]. intros [= _ ->].
  apply doLoad_Ok_inv in Hload as ->. unfold doUpdate. split_and!.
  - by intros ->.
  - by intros ->.
  - by destruct service.
Qed.

Lemma tick_before_doInit_witness :
  (power example_loaded = true → doUpdate example_loaded = ([], Fault)) ∧
  (power (set_app_ (Some (example_app false)) example_loaded) = false →
   doUpdate (set_app_ (Some (example_app false)) example_loaded) =
     ([], Ok (set_app_ (Some (example_app false)) example_loaded))).
Proof.
  split.
  - exact (proj1 (proj2 (tick_before_doInit "bridge" (Some (example_app true)) None
                           _ example_loaded eq_refl))).
  - exact (proj1 (tick_before_doInit "bridge" (Some (example_app false)) None
                    _ (set_app_ (Some (example_app false)) example_loaded) eq_refl)).
Defined.

(** X9. [doLoad] accepts a missing application, [doInit] does not survive
    it.  When [getServiceAs<App>()] yields null, [doLoad] skips its check and
    reports "Loaded"; [doInit] then, having taken a non-null hardware bus,
    dereferences the null [app_] before anything is bound or registered. *)
Theorem doInit_without_app index_option (s : CanBusBridge) :
  ∃ s1, doLoad None index_option s = ([EvSetStatus StatusOk "Loaded"], Ok s1) ∧
        ∀ hw others, doInit (Some hw :: others) s1 = (ambiguity_warning others, Fault).
Proof.
  eexists. split; [reflexivity |].
  intros hw [| second rest]; reflexivity.
Qed.

(** ** The classification table *)

Section Table.
Implicit Types (s : CanBusBridge) (id : N) (m : gmap N bool).

Lemma descriptors_of_snoc id io_input_can_frames input_can_frame :
  descriptors_of id (io_input_can_frames ++ [input_can_frame]) =
    descriptors_of id io_input_can_frames ++
    (if decide (getIdentifier input_can_frame = id) then [input_can_frame] else []).
Proof.
  unfold descriptors_of. by rewrite filter_app.
Qed.

(** Looking up the table that [doInit] builds: the flag of the last
    descriptor that declares the identifier; what the table held before when
    no descriptor declares it. *)
Lemma doInit_fill_map_lookup io_input_can_frames m id :
  doInit_fill_map io_input_can_frames m !! id =
    match last (descriptors_of id io_input_can_frames) with
    | Some input_can_frame => Some (isCanFd input_can_frame)
    | None => m !! id
    end.
Proof.
  unfold doInit_fill_map.
  induction io_input_can_frames as [| input_can_frame rest IH] using rev_ind; [done |].
  rewrite foldl_app, descriptors_of_snoc. cbn [foldl].
  destruct (decide (getIdentifier input_can_frame = id)) as [<- | Hne].
  - by rewrite lookup_insert_eq, last_snoc.
  - by rewrite lookup_insert_ne, app_nil_r.
Qed.

End Table.

(** X11. From the descriptors to the hardware write.  After a successful
    [doInit], an identifier is classified by the last frame descriptor of the
    configuration that declares it (earlier declarations are overwritten),
    and an identifier that no descriptor declares keeps whatever the table
    held before (nothing, on a fresh bridge).  Hence, on a bridge whose table
    was empty before [doInit], a powered, non-suppressed transmission writes
    the frame to hardware with the CAN-FD flag of that last descriptor, and
    with [true] when there is none. *)
Theorem doInit_classifies_by_last_descriptor hardware_can_buses (s : CanBusBridge)
    app evs s1 id :
  doInit hardware_can_buses s = (evs, Ok s1) →
  app_ s = Some app →
  can_id_fd_map_ s1 !! id =
    match last (descriptors_of id (getChildrenRecursiveAs_InputCanFrame app)) with
    | Some input_can_frame => Some (isCanFd input_can_frame)
    | None => can_id_fd_map_ s !! id
    end ∧
  (can_id_fd_map_ s = ∅ →
   isPowered app = true →
   id ∉ received_from_ecu_can_id_set_ s →
   ∀ payload,
     EvWriteFrame id payload
       (from_option isCanFd true
          (last (descriptors_of id (getChildrenRecursiveAs_InputCanFrame app))))
     ∈ events (setFrame id payload s1)).
Proof.
  intros Hinit Happ.
  apply doInit_Ok_inv in Hinit
    as (hw & others & app' & bus & evs_b & _ & Happ' & _ & _ & ->).
  rewrite Happ in Happ'. injection Happ' as <-.
  cbn [can_id_fd_map_]. split; [apply doInit_fill_map_lookup |].
  intros Hempty Hp Hn payload.
  erewrite setFrame_forwarded; [| by cbn; rewrite Happ | done | done].
  cbn [can_id_fd_map_]. rewrite doInit_fill_map_lookup, Hempty, lookup_empty.
  unfold events. cbn [fst].
  destruct (last _); cbn [from_option]; by left.
Qed.

(** Two descriptors declare 0x100, first as CAN-FD, then as classic CAN: the
    write is classic. *)
Lemma doInit_classifies_by_last_descriptor_witness :
  EvWriteFrame 0x100 [] false
  ∈ events (setFrame 0x100 []
              (mkCanBusBridge "bridge" (Some (mkHardwareCanBus true [])) (Some example_bus)
                 (Some (mkApp "Ecu" true example_findChild example_findFullName
                          [example_bus]
                          [mkInputCanFrame 0x100 true; mkInputCanFrame 0x100 false]))
                 0 ∅ ∅ (<[0x100 := false]> (<[0x100 := true]> ∅)) (mkCanFrame 0 []))).
Proof.
  refine (proj2 (doInit_classifies_by_last_descriptor
                   [Some (mkHardwareCanBus false [])]
                   (mkCanBusBridge "bridge" None None
                      (Some (mkApp "Ecu" true example_findChild example_findFullName
                               [example_bus]
                               [mkInputCanFrame 0x100 true; mkInputCanFrame 0x100 false]))
                      0 ∅ ∅ ∅ (mkCanFrame 0 []))
                   _ _ _ 0x100 eq_refl eq_refl) eq_refl eq_refl _ []).
  intros Hin. by apply not_elem_of_empty in Hin.
Defined.

(** X12. A failed [doInit] leaves the endpoints alone.  Whenever [doInit]
    does not return (it throws, or runs into the null [app_]), everything it
    has emitted is a log message: no callback has been registered, the
    output scheduling of no virtual bus has been disabled, and the status
    has not been set. *)
Theorem failed_doInit_only_logs hardware_can_buses (s : CanBusBridge) evs r e :
  doInit hardware_can_buses s = (evs, r) →
  (∀ s', r ≠ Ok s') →
  e ∈ evs →
  is_log e = true.
Proof.
  intros Hrun Hfail Hin.
  destruct (doInit_events _ _ _ _ _ Hrun Hin) as [Hlog | [_ [s' ->]]]; [done |].
  by destruct (Hfail s').
Qed.

Lemma failed_doInit_only_logs_witness :
  is_log (EvLog Info "CAN interface name mismatch. Using CAN bus index 0.") = true.
Proof.
  refine (failed_doInit_only_logs [Some (mkHardwareCanBus false []); None]
            (mkCanBusBridge "other" None None (Some unresolved_app) 0 ∅ ∅ ∅ (mkCanFrame 0 []))
            [EvLog Warn "Multiple HardwareCanBus children are defined. The first one will be used.";
             EvLog Info "CAN interface name mismatch. Using CAN bus index 0."]
            (Throw "CAN bus not found in configuration file for index 0")
            _ eq_refl _ _).
  - intros s' Heq. discriminate Heq.
  - apply list_elem_of_further. constructor.
Defined.

(** ** The index scan, candidate by candidate *)

Section IndexScan.
Implicit Types (s : CanBusBridge) (app : App) (index : N).

(** One candidate of the index whose path does not resolve is enough for the
    scan to throw, wherever it stands among the candidates. *)
Lemma doInit_scan_some_unresolved app index io_can_buses : ∀ can_bus,
  (∃ io_can_bus, io_can_bus ∈ io_can_buses ∧ index = getIndex io_can_bus ∧
                 resolves_by_index app io_can_bus = None) →
  ∃ evs, doInit_scan app index io_can_buses can_bus =
           (evs, Throw ("CAN bus not found in configuration file for index "
                        +:+ pretty index)).
Proof.
  induction io_can_buses as [| io_can_bus rest IH]; intros can_bus (b & Hb & Hidx & Hres).
  - by apply elem_of_nil in Hb.
  - cbn [doInit_scan]. case_bool_decide as Hdec.
    + unfold log. rewrite bind_emit. cbn beta zeta.
      change (dynamic_cast_CanBus _) with (resolves_by_index app io_can_bus).
      destruct (resolves_by_index app io_can_bus) as [found |] eqn:Hfound.
      * destruct (IH (Some found)) as (evs & ->); [| by eexists].
        apply elem_of_cons in Hb as [-> | Hb]; [congruence | by exists b].
      * by eexists.
    + apply IH. apply elem_of_cons in Hb as [-> | Hb]; [done | by exists b].
Qed.

(** When every candidate of the index resolves, the scan returns with the
    bus of the last of them, having logged once per candidate. *)
Lemma doInit_scan_last app index io_can_buses : ∀ can_bus,
  (∀ io_can_bus, io_can_bus ∈ io_can_buses → index = getIndex io_can_bus →
                 is_Some (resolves_by_index app io_can_bus)) →
  doInit_scan app index io_can_buses can_bus =
    (replicate (length (candidates_of index io_can_buses))
       (EvLog Info ("CAN interface name mismatch. Using CAN bus index "
                    +:+ pretty index +:+ ".")),
     Ok (match last (candidates_of index io_can_buses) with
         | Some io_can_bus => resolves_by_index app io_can_bus
         | None => can_bus
         end)).
Proof.
  unfold candidates_of.
  induction io_can_buses as [| io_can_bus rest IH]; intros can_bus Hall; [done |].
  cbn [doInit_scan]. case_bool_decide as Hdec.
  - rewrite filter_cons_True by done.
    destruct (Hall io_can_bus) as [found Hfound]; [by left | done |].
    unfold log. rewrite bind_emit. cbn beta zeta.
    change (dynamic_cast_CanBus _) with (resolves_by_index app io_can_bus).
    rewrite Hfound, IH by (intros b Hb; apply Hall; by right).
    cbn [fst snd length replicate]. do 2 f_equal.
    destruct (filter _ rest) as [| later l]; [cbn [last]; by rewrite Hfound |].
    rewrite last_cons_cons.
    destruct (last (later :: l)) eqn:Hlast; [done | by apply last_None in Hlast].
  - rewrite filter_cons_False by done. apply IH. intros b Hb. apply Hall. by right.
Qed.

End IndexScan.

(** X13. The index fallback, exactly.  When the bridge's name does not
    resolve, [doInit] looks up every virtual bus of the configured index, in
    enumeration order, without stopping at the first hit.  If one of them
    does not resolve, [doInit] throws the error that names the index, even
    when an earlier candidate did resolve.  If all of them resolve, the bus
    bound is the one the last candidate resolves to, and the fallback has
    been logged once per candidate. *)
Theorem index_fallback_scans_all (s : CanBusBridge) app hw others :
  app_ s = Some app →
  getChildrenRecursiveAs_CanBus app ≠ [] →
  resolves_by_name app s = None →
  ((∃ io_can_bus, io_can_bus ∈ getChildrenRecursiveAs_CanBus app ∧
                  index_ s = getIndex io_can_bus ∧
                  resolves_by_index app io_can_bus = None) →
   result (doInit (Some hw :: others) s) =
     Throw ("CAN bus not found in configuration file for index " +:+ pretty (index_ s))) ∧
  ((∀ io_can_bus, io_can_bus ∈ getChildrenRecursiveAs_CanBus app →
                  index_ s = getIndex io_can_bus →
                  is_Some (resolves_by_index app io_can_bus)) →
   ∀ io_can_bus,
     last (candidates_of (index_ s) (getChildrenRecursiveAs_CanBus app)) = Some io_can_bus →
     ∃ s', result (doInit (Some hw :: others) s) = Ok s' ∧
           can_bus_ s' = resolves_by_index app io_can_bus ∧
           length (filter (λ e, is_info_log e = true) (events (doInit (Some hw :: others) s))) =
             length (candidates_of (index_ s) (getChildrenRecursiveAs_CanBus app))).
Proof.
  intros Happ Hne Hname. rewrite (doInit_unfold hw others s app Happ).
  rewrite (doInit_bind_virtual_by_index app s) by done. split.
  - intros Hbad.
    destruct (doInit_scan_some_unresolved app (index_ s)
                (getChildrenRecursiveAs_CanBus app) None Hbad) as (evs & ->).
    reflexivity.
  - intros Hall io_can_bus Hlast.
    rewrite (doInit_scan_last app (index_ s) _ None Hall), Hlast, bind_Ok.
    destruct (Hall io_can_bus) as [found Hfound].
    { apply last_Some_elem_of in Hlast. unfold candidates_of in Hlast.
      by apply list_elem_of_filter in Hlast as [_ ?]. }
    { apply last_Some_elem_of in Hlast. unfold candidates_of in Hlast.
      by apply list_elem_of_filter in Hlast as [? _]. }
    rewrite Hfound. cbn [fst snd mret M_mret M_ret]. unfold result, events. cbn [fst snd].
    eexists. split_and!; [reflexivity | by cbn |].
    rewrite app_nil_r, !filter_app, !length_app.
    assert (filter (λ e, is_info_log e = true) (ambiguity_warning others) = []) as ->
      by (by destruct others).
    assert (∀ n msg, filter (λ e, is_info_log e = true) (replicate n (EvLog Info msg))
                     = replicate n (EvLog Info msg)) as ->.
    { intros n msg. induction n as [| n IH]; [done |].
      cbn [replicate]. by rewrite filter_cons_True, IH. }
    rewrite length_replicate.
    destruct (getChildrenRecursiveAs_InputCanFrame app);
      repeat (rewrite filter_cons_False by done); rewrite !filter_nil; cbn [length]; lia.
Qed.

(** Two virtual buses of index 0, "can0" and "can1", both resolving by their
    "ComSpec" path: the bridge binds what the second one resolves to. *)
Lemma index_fallback_scans_all_witness :
  ∃ s', result (doInit [Some (mkHardwareCanBus false [])] two_candidates_bridge) = Ok s' ∧
        can_bus_ s' = Some (mkCanBus "can1" 0 0) ∧
        length (filter (λ e, is_info_log e = true)
                  (events (doInit [Some (mkHardwareCanBus false [])] two_candidates_bridge)))
          = 2%nat.
Proof.
  refine (proj2 (index_fallback_scans_all two_candidates_bridge two_candidates_app
                   (mkHardwareCanBus false []) [] eq_refl _ eq_refl) _
            (mkCanBus "can1" 0 0) eq_refl).
  - discriminate.
  - intros io_can_bus Hin _.
    apply elem_of_cons in Hin as [-> | Hin]; [by eexists |].
    apply list_elem_of_singleton in Hin as ->. by eexists.
Defined.

(** ** What stays fixed during a session *)

Section Fixed.
Implicit Types (s : CanBusBridge) (c : Call) (cs : list Call).

Lemma doUpdate_frame s evs s' :
  doUpdate s = (evs, Ok s') → same_binding s s'.
Proof.
  unfold doUpdate. destruct (power s).
  - destruct (hardware_can_bus_ s) as [hw |]; [| discriminate].
    cbn [deref]. rewrite bind_ret. intros Hloop.
    by apply doUpdate_loop_frame in Hloop as [? _].
  - intros [= _ <-]. by repeat split.
Qed.

(** What a call that returns leaves as it was: the name always; the table
    and the virtual bus unless the call is [doInit]; the index unless the call
    is [doLoad]. *)
Lemma exec_keeps c s evs s' :
  exec c s = (evs, Ok s') →
  name_ s' = name_ s ∧
  (is_DoInit c = false →
     can_id_fd_map_ s' = can_id_fd_map_ s ∧ can_bus_ s' = can_bus_ s) ∧
  (is_DoLoad c = false → index_ s' = index_ s).
Proof.
  destruct c as [service index_option | hardware_can_buses | | | id payload
                 | powered | frame]; cbn [exec]; intros Hrun.
  - apply doLoad_Ok_inv in Hrun as ->. by repeat split.
  - apply doInit_Ok_inv in Hrun as (hw & others & app & bus & evs_b & _ & _ & _ & _ & ->).
    by repeat split.
  - apply doUpdate_frame in Hrun as (? & ? & ? & ? & ?). by repeat split.
  - destruct (pending_hardware_frames s) as [| frame rest];
      [injection Hrun as _ <-; by repeat split |].
    apply doUpdate_relay_frame in Hrun as ((? & ? & ? & ? & ?) & _). by repeat split.
  - apply setFrame_Ok_inv in Hrun as [-> | [-> _]]; by repeat split.
  - injection Hrun as _ <-. by repeat split.
  - injection Hrun as _ <-. by repeat split.
Qed.

Lemma length_append (x z : string) :
  String.length (x +:+ z) = (String.length x + String.length z)%nat.
Proof.
  induction x as [| a x IH]; [done |].
  change (S (String.length (x +:+ z)) = S (String.length x + String.length z)).
  by rewrite IH.
Qed.

Lemma append_inv_tail (x y z : string) : x +:+ z = y +:+ z → x = y.
Proof.
  revert y. induction x as [| a x IH]; intros [| b y] Heq; [done | | |].
  - apply (f_equal String.length) in Heq.
    change (String.length z = S (String.length (y +:+ z))) in Heq.
    rewrite length_append in Heq. lia.
  - apply (f_equal String.length) in Heq.
    change (S (String.length (x +:+ z)) = String.length z) in Heq.
    rewrite length_append in Heq. lia.
  - change (String a (x +:+ z) = String b (y +:+ z)) in Heq.
    injection Heq as -> Heq. f_equal. by apply IH.
Qed.

End Fixed.

(** X14. The table and the binding are fixed outside [doInit].  Through every
    session that contains no [doInit], whatever ticks, transmissions,
    reloads and outside changes it is made of, the classification table and
    the bound virtual bus at the end are those of the start: routing only
    reads them. *)
Theorem table_fixed_outside_doInit cs (s : CanBusBridge) evs s' :
  run cs s = (evs, Ok s') →
  Forall (λ c, is_DoInit c = false) cs →
  can_id_fd_map_ s' = can_id_fd_map_ s ∧ can_bus_ s' = can_bus_ s.
Proof.
  revert s evs. induction cs as [| c cs IH]; intros s evs; cbn [run].
  - by intros [= _ <-].
  - intros Hrun Hcs. apply Forall_cons in Hcs as [Hc Hcs].
    apply bind_Ok_inv in Hrun as (evs1 & s1 & evs2 & Hexec & Hrun & _).
    apply exec_keeps in Hexec as (_ & Hkeep & _). destruct (Hkeep Hc) as [Hm Hb].
    destruct (IH _ _ Hrun Hcs) as [Hm' Hb']. split; by etrans.
Qed.

Lemma table_fixed_outside_doInit_witness :
  can_id_fd_map_ (set_to_be_input_to_ecu_can_id_set_ ({[0x100]} ∪ ∅) example_relayed) =
    can_id_fd_map_ (example_bridge true [mkCanFrame 0x400 []]) ∧
  can_bus_ (set_to_be_input_to_ecu_can_id_set_ ({[0x100]} ∪ ∅) example_relayed) =
    can_bus_ (example_bridge true [mkCanFrame 0x400 []]).
Proof.
  refine (table_fixed_outside_doInit [DoUpdate; SetFrame 0x100 []; SetFrame 0x400 []]
            (example_bridge true [mkCanFrame 0x400 []]) _ _ eq_refl _).
  repeat constructor.
Defined.

(** X15. What [toString] shows.  The text starts with the header line
    "[CanBusBridge]", and for a given base-class text it depends on the name
    and the index only: two bridges of the same name print the same text
    exactly when they have the same index, and no session without a [doLoad]
    changes what a bridge prints. *)
Theorem toString_shows_name_and_index (Component_toString : string) (s : CanBusBridge) :
  String.prefix ("[CanBusBridge]" +:+ newline) (toString Component_toString s) = true ∧
  (∀ s' : CanBusBridge,
     name_ s' = name_ s →
     (toString Component_toString s' = toString Component_toString s ↔
      index_ s' = index_ s)) ∧
  (∀ cs evs s',
     run cs s = (evs, Ok s') →
     Forall (λ c, is_DoLoad c = false) cs →
     toString Component_toString s' = toString Component_toString s).
Proof.
  split_and!.
  - reflexivity.
  - intros s' Hname. unfold toString. cbn zeta. rewrite Hname. split.
    + intros Heq. apply append_inv_tail in Heq.
      do 2 apply (inj (String.append _)) in Heq.
      apply append_inv_tail in Heq. by apply (inj pretty) in Heq.
    + by intros ->.
  - intros cs. revert s. induction cs as [| c cs IH]; intros s evs s'; cbn [run].
    + by intros [= _ <-].
    + intros Hrun Hcs. apply Forall_cons in Hcs as [Hc Hcs].
      apply bind_Ok_inv in Hrun as (evs1 & s1 & evs2 & Hexec & Hrun & _).
      apply exec_keeps in Hexec as (Hname & _ & Hindex).
      rewrite (IH _ _ _ Hrun Hcs). unfold toString. by rewrite Hname, (Hindex Hc).
Qed.

Lemma toString_shows_name_and_index_witness :
  (toString "" (set_index_ 3 example_loaded) = toString "" example_loaded ↔
   index_ (set_index_ 3 example_loaded) = index_ example_loaded) ∧
  toString "" (set_to_be_input_to_ecu_can_id_set_ ({[0x100]} ∪ ∅) example_relayed) =
    toString "" example_loaded.
Proof.
  split.
  - exact (proj1 (proj2 (toString_shows_name_and_index "" example_loaded))
             (set_index_ 3 example_loaded) eq_refl).
  - refine (proj2 (proj2 (toString_shows_name_and_index "" example_loaded))
              [DoInit [Some (mkHardwareCanBus false [mkCanFrame 0x400 []])];
               DoUpdate; SetFrame 0x100 []; SetFrame 0x400 []] _ _ eq_refl _).
    repeat constructor.
Defined.

(** ** When initialisation succeeds *)

Section InitSucceeds.
Implicit Types (s : CanBusBridge) (app : App).

(** The virtual binding returns exactly when there is a virtual bus at all
    and either the name resolves or there are candidates of the configured
    index that all resolve. *)
Lemma doInit_bind_virtual_Ok_iff app s :
  (∃ evs bus, doInit_bind_virtual app s = (evs, Ok bus)) ↔
  getChildrenRecursiveAs_CanBus app ≠ [] ∧
  (is_Some (resolves_by_name app s) ∨
   (candidates_of (index_ s) (getChildrenRecursiveAs_CanBus app) ≠ [] ∧
    ∀ io_can_bus,
      io_can_bus ∈ candidates_of (index_ s) (getChildrenRecursiveAs_CanBus app) →
      is_Some (resolves_by_index app io_can_bus))).
Proof.
  destruct (decide (getChildrenRecursiveAs_CanBus app = [])) as [Hnil | Hne].
  { unfold doInit_bind_virtual. rewrite Hnil. split; [by intros (? & ? & [=]) | by intros []]. }
  destruct (resolves_by_name app s) as [bus |] eqn:Hname.
  { rewrite (doInit_bind_virtual_by_name app s bus) by done.
    split; [intros _; split; [done | left; by eexists] | intros _; by eexists _, _]. }
  rewrite (doInit_bind_virtual_by_index app s) by done.
  set (cands := candidates_of (index_ s) (getChildrenRecursiveAs_CanBus app)).
  destruct (decide (Forall (λ b, is_Some (resolves_by_index app b)) cands))
    as [Hall | Hbad].
  - rewrite Forall_forall in Hall.
    rewrite (doInit_scan_last app (index_ s) _ None), bind_Ok.
    2: { intros b Hb Hidx. apply Hall. unfold cands, candidates_of.
         by apply list_elem_of_filter. }
    fold cands. destruct (last cands) as [b |] eqn:Hlast.
    + destruct (Hall b) as [found Hfound]; [by eapply last_Some_elem_of |].
      rewrite Hfound. split; [| intros _; by eexists _, _].
      intros _. split; [done | right]. split; [| done].
      intros Hnil. by rewrite Hnil in Hlast.
    + apply last_None in Hlast. split; [by intros (? & ? & [=]) |].
      intros [_ [[? [=]] | [? _]]]. done.
  - apply not_Forall_Exists in Hbad; [| apply _].
    apply Exists_exists in Hbad as (b & Hb & Hnone).
    unfold cands, candidates_of in Hb. apply list_elem_of_filter in Hb as [Hidx Hb].
    destruct (doInit_scan_some_unresolved app (index_ s)
                (getChildrenRecursiveAs_CanBus app) None) as (evs & ->).
    { exists b. split_and!; [done | done |]. by apply eq_None_not_Some. }
    split; [by intros (? & ? & [=]) |].
    intros [_ [[? [=]] | [_ Hall]]]. destruct Hnone. apply Hall.
    unfold cands, candidates_of. by apply list_elem_of_filter.
Qed.

End InitSucceeds.

(** X16. When [doInit] succeeds.  [doInit] returns exactly when: the first
    hardware candidate exists and is not null; the application is there; the
    configuration holds at least one virtual bus; and either the bridge's
    name resolves to a virtual bus, or some virtual bus has the configured
    index and every virtual bus of that index resolves by its path.  In
    every other configuration it throws or dereferences a null pointer. *)
Theorem doInit_succeeds_iff hardware_can_buses (s : CanBusBridge) :
  (∃ s', result (doInit hardware_can_buses s) = Ok s') ↔
  ∃ hw others app,
    hardware_can_buses = Some hw :: others ∧
    app_ s = Some app ∧
    getChildrenRecursiveAs_CanBus app ≠ [] ∧
    (is_Some (resolves_by_name app s) ∨
     (candidates_of (index_ s) (getChildrenRecursiveAs_CanBus app) ≠ [] ∧
      ∀ io_can_bus,
        io_can_bus ∈ candidates_of (index_ s) (getChildrenRecursiveAs_CanBus app) →
        is_Some (resolves_by_index app io_can_bus))).
Proof.
  split.
  - intros [s' Hres]. destruct (doInit hardware_can_buses s) as [evs r] eqn:Hrun.
    unfold result in Hres. cbn [snd] in Hres. subst r.
    apply doInit_Ok_inv in Hrun
      as (hw & others & app & bus & evs_b & -> & Happ & Hbind & _ & _).
    exists hw, others, app. split_and!; [done | done | |];
      apply (doInit_bind_virtual_Ok_iff app s); by exists evs_b, bus.
  - intros (hw & others & app & -> & Happ & Hne & Hfound).
    rewrite (doInit_unfold hw others s app Happ).
    destruct (proj2 (doInit_bind_virtual_Ok_iff app s) (conj Hne Hfound))
      as (evs_b & bus & ->).
    by eexists.
Qed.

Lemma doInit_succeeds_iff_witness :
  ∃ s', result (doInit [Some (mkHardwareCanBus false []); None] two_candidates_bridge)
        = Ok s'.
Proof.
  apply (proj2 (doInit_succeeds_iff [Some (mkHardwareCanBus false []); None]
                  two_candidates_bridge)).
  exists (mkHardwareCanBus false []), [None], two_candidates_app.
  split_and!; [reflexivity | reflexivity | discriminate |].
  right. split; [discriminate |].
  intros io_can_bus Hin.
  apply elem_of_cons in Hin as [-> | Hin]; [by eexists |].
  apply list_elem_of_singleton in Hin as ->. by eexists.
Defined.
